(** * clickatell-python: the response parser and the API client

    A shallow embedding of [clickatell/__init__.py] (Python 2) and the
    properties of its response parser, endpoint table and request handler.

    Python byte strings are [string] (one [ascii] per byte); the response
    object, a subclass of Python 2's [dict], is a finite map [gmap string
    value]; exceptions are an explicit result type; the HTTPS connection and
    the gateway behind it are an explicit [world] threaded through the
    client's methods. *)

From Stdlib Require Import Ascii String.
From stdpp Require Import base strings list gmap.

(** ** Python string primitives used by the module *)

(** The line feed, Python's ["\n"]. *)
Definition LF : ascii := "010"%char.

(** [str.isspace] on one byte, which is also the class [\s] of [re] when no
    flag is given: space, \t, \n, \v, \f, \r. *)
Definition isspace (c : ascii) : bool :=
  let n := nat_of_ascii c in
  Nat.eqb n 32 || (Nat.leb 9 n && Nat.leb n 13).

(** The character class [[A-Za-z]]. *)
Definition isalpha (c : ascii) : bool :=
  let n := nat_of_ascii c in
  (Nat.leb 65 n && Nat.leb n 90) || (Nat.leb 97 n && Nat.leb n 122).

(** [sep in s] for a one-character [sep]. *)
Fixpoint contains (sep : ascii) (s : string) : bool :=
  match s with
  | EmptyString => false
  | String c s' => Ascii.eqb c sep || contains sep s'
  end.

(** [s.split(sep)] for a one-character separator: every occurrence of the
    separator cuts, and empty pieces are kept. *)
Fixpoint split (sep : ascii) (s : string) : list string :=
  match s with
  | EmptyString => [EmptyString]
  | String c s' =>
      if Ascii.eqb c sep then EmptyString :: split sep s'
      else match split sep s' with
           | piece :: rest => String c piece :: rest
           | [] => [String c EmptyString]
           end
  end.

(** [sep.join(pieces)], the inverse of [split]. *)
Fixpoint join (sep : ascii) (pieces : list string) : string :=
  match pieces with
  | [] => EmptyString
  | [p] => p
  | p :: rest => p +:+ String sep (join sep rest)
  end.

Fixpoint lstrip (s : string) : string :=
  match s with
  | EmptyString => EmptyString
  | String c s' => if isspace c then lstrip s' else s
  end.

Fixpoint rstrip (s : string) : string :=
  match s with
  | EmptyString => EmptyString
  | String c s' =>
      match rstrip s' with
      | EmptyString => if isspace c then EmptyString else String c EmptyString
      | r => String c r
      end
  end.

(** [s.strip()] *)
Definition strip (s : string) : string := lstrip (rstrip s).

(** ** The regular expression of a response line

    [KEY_VALUE_RE], used through [KEY_VALUE_RE.match(line)]. The pattern
    is, from left to right: the start of the string; group 1, one or more
    characters of A-Z or a-z; a colon; any number of whitespace characters;
    group 2, any number of characters other than the line feed; the end of
    the string. All three repetitions are greedy. *)

(** The greedy run [[A-Za-z]*] at the start of [s], and what follows it. *)
Fixpoint letters (s : string) : string * string :=
  match s with
  | EmptyString => (EmptyString, EmptyString)
  | String c s' =>
      if isalpha c then
        let (k, r) := letters s' in (String c k, r)
      else (EmptyString, s)
  end.

(** Group 2 and the end anchor, matched from the start of [s]: the dot
    takes any character but the line feed, and the anchor holds at the end
    of the string or just before a line feed that ends it. The result is the
    captured group. *)
Fixpoint dot_star_end (s : string) : option string :=
  match s with
  | EmptyString => Some EmptyString
  | String c s' =>
      if Ascii.eqb c LF then
        match s' with EmptyString => Some EmptyString | _ => None end
      else String c <$> dot_star_end s'
  end.

(** [KEY_VALUE_RE.match(line)]: [None] when the line does not match,
    otherwise the groups 1 and 2. The letter run is greedy and must be
    followed by the colon at once; the whitespace run is greedy, and giving
    characters of it back never helps group 2 to reach the end, so the first
    attempt decides. *)
Definition KEY_VALUE_RE_match (line : string) : option (string * string) :=
  match letters line with
  | (String k0 k, String ":" rest) =>
      pair (String k0 k) <$> dot_star_end (lstrip rest)
  | _ => None
  end.

(** ** Exceptions and results *)

Inductive exn :=
| ClickatellError (code : option string) (message : string)
| AttributeError (name : string)
| ValueError
| KeyError (key : string)
| TypeError
| TransportError.

Inductive result (A : Type) :=
| Ok (a : A)
| Raise (e : exn).
Arguments Ok {A} a.
Arguments Raise {A} e.

(** Sequencing: an exception ends the computation. The instance gives the
    notation [x ← r; k]. *)
#[global] Instance result_bind : MBind result := λ A B k r,
  match r with
  | Ok a => k a
  | Raise e => Raise e
  end.

(** ** ClickatellResponse *)

(** A stored value: the string of a unique key, or the list of the values
    of a repeating key. *)
Inductive value :=
| VStr (s : string)
| VList (l : list string).

(** The statement [raise ClickatellError(...)] of the [ERR] branch, with the
    tuple unpacking [code, message = value.split(',')] that precedes it. *)
Definition raise_error (v : string) : exn :=
  if contains "," v then
    match split "," v with
    | [code; message] => ClickatellError (Some (strip code)) (strip message)
    | _ => ValueError
    end
  else ClickatellError None (strip v).

(** The last [if] of the loop body: the value of a unique key is stored as a
    string, the values of a repeating key are stored in a list. *)
Definition store (key v : string) (self : gmap string value) : gmap string value :=
  match self !! key with
  | Some (VList l) => <[key := VList (l ++ [v])]> self
  | Some (VStr old) => <[key := VList [old; v]]> self
  | None => <[key := VStr v]> self
  end.

(** One iteration of the loop of [_parse_response] on the raw [line]. *)
Definition parse_line (line : string) (self : gmap string value)
  : result (gmap string value) :=
  let line := strip line in
  match line with
  | EmptyString => Ok self
  | _ =>
      match KEY_VALUE_RE_match line with
      | None => Raise (AttributeError "group")
      | Some (key, v) =>
          if String.eqb key "ERR" then Raise (raise_error v)
          else Ok (store key v self)
      end
  end.

Fixpoint parse_lines (lines : list string) (self : gmap string value)
  : result (gmap string value) :=
  match lines with
  | [] => Ok self
  | line :: rest => self' ← parse_line line self; parse_lines rest self'
  end.

(** [ClickatellResponse._parse_response(self, data)] *)
Definition _parse_response (data : string) (self : gmap string value)
  : result (gmap string value) :=
  parse_lines (split LF data) self.

(** [ClickatellResponse(data)]: the constructor runs [_parse_response] on the
    new, empty dict; when it raises, the caller gets the exception and no
    object. *)
Definition ClickatellResponse (data : string) : result (gmap string value) :=
  _parse_response data ∅.

(** ** The connection and the gateway

    [httplib.HTTPSConnection] and the server behind it. [events] is the log
    of the calls made on the connection, oldest first; [inbox] is what the
    gateway will answer, one [reply] per request; [is_open] tells whether
    the connection object holds an open socket. *)

Inductive reply :=
| Body (data : string)   (* the response body that [read()] returns *)
| Refused                (* [connect()] raises *)
| Broken.                (* [getresponse()] or [read()] raises *)

Inductive event :=
| Connect
| Request (verb url : string)
| Close.

Record world := World {
  events : list event;
  inbox : list reply;
  is_open : bool
}.

(** Computations on the connection: a state and exception monad. *)
Definition M (A : Type) : Type := world → result A * world.

#[global] Instance M_ret : MRet M := λ A a w, (Ok a, w).

#[global] Instance M_bind : MBind M := λ A B k m w,
  match m w with
  | (Ok a, w') => k a w'
  | (Raise e, w') => (Raise e, w')
  end.

Definition raise {A} (e : exn) : M A := λ w, (Raise e, w).

Definition lift {A} (r : result A) : M A := λ w, (r, w).

Definition log (e : event) (w : world) : list event := events w ++ [e].

(** [httplib.HTTPSConnection(host)]: a new connection object, not yet
    connected. *)
Definition HTTPSConnection (host : string) : M unit := λ w,
  (Ok (), World (events w) (inbox w) false).

Definition connect : M unit := λ w,
  match inbox w with
  | Refused :: rest => (Raise TransportError, World (log Connect w) rest (is_open w))
  | _ => (Ok (), World (log Connect w) (inbox w) true)
  end.

Definition request (verb url : string) : M unit := λ w,
  (Ok (), World (log (Request verb url) w) (inbox w) (is_open w)).

(** [getresponse()] followed by [read()] *)
Definition getresponse_read : M string := λ w,
  match inbox w with
  | Body data :: rest => (Ok data, World (events w) rest (is_open w))
  | _ => (Raise TransportError, World (events w) (tail (inbox w)) (is_open w))
  end.

Definition close : M unit := λ w,
  (Ok (), World (log Close w) (inbox w) false).

(** [urllib.urlencode] of the Python 2 standard library: the [key=value]
    pairs of the dict, each side quoted, joined by [&], in the unspecified
    order of the dict's items. *)
Class Urllib := { urlencode : gmap string value → string }.

(** ** Clickatell *)

Definition SERVER : string := "api.clickatell.com".

(** The dict literal of [METHODS], in the order of the source. *)
Definition METHODS_literal : list (string * string) :=
  [ ("auth",          "http/auth");
    ("delmsg",        "http/delmsg");
    ("getbalance",    "http/getbalance");
    ("getmsgcharge",  "http/getmsgcharge");
    ("ping",          "http/ping");
    ("sendmsg",       "http/sendmsg");
    ("token_pay",     "http/token_pay");
    ("querymsg",      "http/querymsg");
    ("startbatch",    "http_batch/startbatch");
    ("senditem",      "http_batch/senditem");
    ("quicksend",     "http_batch/quicksend");
    ("endbatch",      "http_batch/endbatch");
    ("routeCoverage", "utils/routeCoverage.php");
    ("ind_push",      "mms/ind_push.php");
    ("si_push",       "mms/si_push") ].

Definition METHODS : gmap string string := list_to_map METHODS_literal.

(** The instance: [_session_id] is absent until [__init__] has stored it.
    The attribute [_connection] is the connection of the [world]. *)
Record Clickatell := { _session_id : option value }.

(** What an attribute lookup on an instance gives back. [Handler method] is
    the closure [_handler] that [_create_handler(method)] returns. *)
Inductive attribute :=
| Handler (method : string)
| Connection
| SessionId (v : value)
| Server (s : string)
| Methods (m : gmap string string)
| BoundInit
| BoundCreateHandler
| BoundGetattribute
| Inherited (name : string).

(** The names every instance of a new-style class has from [object] and
    from the class statement itself in Python 2.7. *)
Definition object_names : list string :=
  [ "__class__"; "__delattr__"; "__dict__"; "__doc__"; "__format__";
    "__hash__"; "__module__"; "__new__"; "__reduce__"; "__reduce_ex__";
    "__repr__"; "__setattr__"; "__sizeof__"; "__str__";
    "__subclasshook__"; "__weakref__" ].

(** [object.__getattribute__(self, name)]: the instance's own attributes,
    then those of the class, then those inherited from [object]. *)
Definition object_getattribute (self : Clickatell) (name : string)
  : result attribute :=
  if decide (name = "_connection") then Ok Connection
  else if decide (name = "_session_id") then
    match _session_id self with
    | Some v => Ok (SessionId v)
    | None => Raise (AttributeError name)
    end
  else if decide (name = "SERVER") then Ok (Server SERVER)
  else if decide (name = "METHODS") then Ok (Methods METHODS)
  else if decide (name = "__init__") then Ok BoundInit
  else if decide (name = "_create_handler") then Ok BoundCreateHandler
  else if decide (name = "__getattribute__") then Ok BoundGetattribute
  else if decide (name ∈ object_names) then Ok (Inherited name)
  else Raise (AttributeError name).

(** [Clickatell._create_handler(self, method)]: the closure over [self] and
    [method], whose body is [_handler] below. *)
Definition _create_handler (self : Clickatell) (method : string) : attribute :=
  Handler method.

(** [Clickatell.__getattribute__(self, name)] *)
Definition __getattribute__ (self : Clickatell) (name : string)
  : result attribute :=
  match METHODS !! name with
  | Some method => Ok (_create_handler self method)
  | None => object_getattribute self name
  end.

(** [hasattr(self, name)]: the lookup did not raise. *)
Definition hasattr (self : Clickatell) (name : string) : bool :=
  match __getattribute__ self name with
  | Ok _ => true
  | Raise _ => false
  end.

Section Client.
Context `{Urllib}.

(** The body of the closure [_handler] made by [_create_handler(self,
    method)]; [args] is the dict of its keyword arguments. *)
Definition _handler (self : Clickatell) (method : string)
    (args : gmap string value) : M (gmap string value) :=
  let args :=
    match __getattribute__ self "_session_id" with
    | Ok (SessionId tok) => <["session_id" := tok]> args
    | _ => args
    end in
  let params := urlencode args in
  _ ← connect;
  _ ← request "GET" ("/" +:+ method +:+ "?" +:+ params);
  data ← getresponse_read;
  result ← lift (ClickatellResponse data);
  _ ← close;
  mret result.

(** [Clickatell.__init__(self, user, password, api_id)]. The call
    [self.auth(...)] goes through [__getattribute__], which finds [auth] in
    [METHODS] and makes the handler of its path. *)
Definition __init__ (self : Clickatell) (user password api_id : string)
  : M Clickatell :=
  _ ← HTTPSConnection SERVER;
  match __getattribute__ self "auth" with
  | Ok (Handler method) =>
      auth ← _handler self method
        (<["user" := VStr user]> (<["password" := VStr password]>
          (<["api_id" := VStr api_id]> ∅)));
      match auth !! "OK" with
      | Some tok => mret {| _session_id := Some tok |}
      | None => raise (KeyError "OK")
      end
  | Ok _ => raise TypeError
  | Raise e => raise e
  end.

(** [Clickatell(user, password, api_id)]: [__init__] on a new instance. *)
Definition new_instance : Clickatell := {| _session_id := None |}.

Definition Clickatell_new (user password api_id : string) : M Clickatell :=
  __init__ new_instance user password api_id.

(** What a call returns: a response, an attribute, or [None] (from
    [__init__], with the instance as it has become). *)
Inductive retval :=
| Response (d : gmap string value)
| Attribute (a : attribute)
| NoneValue (self : Clickatell).

(** The keyword arguments are exactly the names [names]. *)
Definition exactly (names : list string) (kwargs : gmap string string) : bool :=
  bool_decide (dom kwargs = (list_to_set names : gset string)).

(** The call of an attribute [a] of [self] with the keyword arguments
    [kwargs], which are strings. What calling an attribute inherited from
    [object] does is decided by the Python runtime and is given no result
    here. *)
Definition call (self : Clickatell) (a : attribute)
    (kwargs : gmap string string) : option (M retval) :=
  match a with
  | Handler method =>
      Some (d ← _handler self method (VStr <$> kwargs); mret (Response d))
  | BoundInit =>
      Some (match kwargs !! "user", kwargs !! "password", kwargs !! "api_id" with
            | Some user, Some password, Some api_id =>
                if exactly ["user"; "password"; "api_id"] kwargs then
                  self' ← __init__ self user password api_id;
                  mret (NoneValue self')
                else raise TypeError
            | _, _, _ => raise TypeError
            end)
  | BoundCreateHandler =>
      Some (match kwargs !! "method" with
            | Some method =>
                if exactly ["method"] kwargs then
                  mret (Attribute (_create_handler self method))
                else raise TypeError
            | None => raise TypeError
            end)
  | BoundGetattribute =>
      Some (match kwargs !! "name" with
            | Some name =>
                if exactly ["name"] kwargs then
                  a ← lift (__getattribute__ self name); mret (Attribute a)
                else raise TypeError
            | None => raise TypeError
            end)
  | Connection | SessionId _ | Server _ | Methods _ => Some (raise TypeError)
  | Inherited _ => None
  end.

(** What a caller writes as [clickatell.name] followed by keyword
    arguments: the attribute lookup, then the call of what it gave. *)
Definition invoke (self : Clickatell) (name : string)
    (kwargs : gmap string string) (w : world) : option (result retval * world) :=
  match __getattribute__ self name with
  | Raise e => Some (Raise e, w)
  | Ok a => (λ m : M retval, m w) <$> call self a kwargs
  end.

End Client.

(** The URLs of the requests in a log. *)
Definition requests (log : list event) : list string :=
  omap (λ e, match e with Request _ url => Some url | _ => None end) log.

(** ** An encoder for the examples

    [urllib.quote_plus] and [urllib.urlencode] as the Python 2.7 library
    defines them on strings. Python 2 leaves the order of the items of a
    dict unspecified; here they are taken in the order of [map_to_list], so
    that the URLs written out in the examples hold up to the order of their
    parameters. *)

Definition hexdigit (n : nat) : ascii :=
  ascii_of_nat (if Nat.ltb n 10 then 48 + n else 55 + n).

(** The characters [quote] never quotes: letters, digits and [_.-]. *)
Definition always_safe (c : ascii) : bool :=
  let n := nat_of_ascii c in
  isalpha c || (Nat.leb 48 n && Nat.leb n 57)
  || Ascii.eqb c "_" || Ascii.eqb c "." || Ascii.eqb c "-".

Fixpoint quote_plus (s : string) : string :=
  match s with
  | EmptyString => EmptyString
  | String c s' =>
      if always_safe c then String c (quote_plus s')
      else if Ascii.eqb c " " then String "+" (quote_plus s')
      else
        let n := nat_of_ascii c in
        String "%" (String (hexdigit (n / 16)) (String (hexdigit (n mod 16))
          (quote_plus s')))
  end.

(** [str(v)] of a stored value. A list is written as Python writes a list
    of strings that hold no quote, backslash or control character. *)
Definition str (v : value) : string :=
  match v with
  | VStr s => s
  | VList l =>
      "[" +:+ String.concat ", " ((λ s, "'" +:+ s +:+ "'") <$> l) +:+ "]"
  end.

Definition urlencode_items (args : gmap string value) : string :=
  String.concat "&"
    ((λ kv, quote_plus kv.1 +:+ "=" +:+ quote_plus (str kv.2))
       <$> map_to_list args).

Definition urllib : Urllib := {| urlencode := urlencode_items |}.

(** ** Vocabulary of the statements *)

(** The parameters that the handler encodes: the session token, when the
    instance has one, written over what the caller gave. *)
Definition parameters (self : Clickatell) (args : gmap string value)
  : gmap string value :=
  match _session_id self with
  | Some tok => <["session_id" := tok]> args
  | None => args
  end.

(** The keyword arguments of the call [self.auth(...)] in [__init__]. *)
Definition credentials (user password api_id : string) : gmap string value :=
  <["user" := VStr user]> (<["password" := VStr password]>
    (<["api_id" := VStr api_id]> ∅)).

(** The gateway refuses the next connection. *)
Definition refused (w : world) : bool :=
  match inbox w with
  | Refused :: _ => true
  | _ => false
  end.

Definition nl : string := String LF EmptyString.

(** The carriage return, Python's ["\r"]. *)
Definition CR : string := String "013"%char EmptyString.

(** The line is empty once trimmed: the loop skips it. *)
Definition blank (line : string) : Prop := strip line = EmptyString.

#[global] Instance blank_dec line : Decision (blank line).
Proof. unfold blank. apply _. Defined.

(** The key and the value the loop reads on a raw line; [None] when the
    trimmed line does not match the pattern (a blank line does not). *)
Definition line_pair (line : string) : option (string * string) :=
  KEY_VALUE_RE_match (strip line).

(** Every line is blank or matches the pattern. *)
Definition well_formed (lines : list string) : Prop :=
  Forall (λ line, blank line ∨ is_Some (line_pair line)) lines.

(** The keys and values of the lines, in the order received. *)
Definition pairs (lines : list string) : list (string * string) :=
  omap line_pair lines.

Definition keys (lines : list string) : list string := (pairs lines).*1.

(** The values received for [key], in the order received. *)
Definition occurrences (key : string) (lines : list string) : list string :=
  (filter (λ p, p.1 = key) (pairs lines)).*2.

(** The value the loop leaves for a key once it has stored [v] over [old]. *)
Definition extend (old : option value) (v : string) : option value :=
  Some match old with
       | None => VStr v
       | Some (VStr s) => VList [s; v]
       | Some (VList l) => VList (l ++ [v])
       end.

(** What the claims say a key holds after the values [vs] were received. *)
Definition collected (vs : list string) : option value :=
  match vs with
  | [] => None
  | [v] => Some (VStr v)
  | _ => Some (VList vs)
  end.

(** Every character of [s] is in the class [P]. *)
Fixpoint every (P : ascii → bool) (s : string) : bool :=
  match s with
  | EmptyString => true
  | String c s' => P c && every P s'
  end.

(** [ClickatellError.__str__(self)] on the fields that [__init__] stored:
    the format writes an absent code, Python's [None], as the word None. *)
Definition ClickatellError__str__ (code : option string) (message : string)
  : string :=
  "<Clickatell Error: " +:+ message +:+ " (Code " +:+ default "None" code
  +:+ ")>".

(** What one call may add to the log: nothing, or a [connect], then at
    most one request, then at most one [close]. *)
Definition exchange (added : list event) : Prop :=
  added = [] ∨ added = [Connect]
  ∨ ∃ url, added = [Connect; Request "GET" url]
           ∨ added = [Connect; Request "GET" url; Close].

(** Unfolds the sequencing of the connection monad and its primitives. *)
Ltac run_M :=
  unfold mbind, M_bind, mret, M_ret, connect, request, getresponse_read,
    lift, close, HTTPSConnection, raise, log.

(** * Properties *)

(** ** Strings *)

Lemma append_String c s t : String c s +:+ t = String c (s +:+ t).
Proof. done. Qed.

Lemma append_empty t : EmptyString +:+ t = t.
Proof. done. Qed.

Lemma append_assoc a b c : (a +:+ b) +:+ c = a +:+ b +:+ c.
Proof.
  induction a as [|x a IH]; [done|]. rewrite !append_String. by f_equal.
Qed.

Lemma every_append P a b : every P (a +:+ b) = every P a && every P b.
Proof.
  induction a as [|x a IH]; [done|]. rewrite append_String. simpl.
  by rewrite IH, andb_assoc.
Qed.

Lemma split_nonempty sep s : split sep s ≠ [].
Proof.
  destruct s as [|c s]; simpl; [done|].
  destruct (Ascii.eqb c sep); [done|]. by destruct (split sep s).
Qed.

Lemma split_no_sep sep s :
  Forall (λ piece, contains sep piece = false) (split sep s).
Proof.
  induction s as [|c s IH]; simpl.
  - by repeat constructor.
  - destruct (Ascii.eqb c sep) eqn:Hc.
    + by constructor.
    + destruct (split sep s) as [|piece rest]; constructor; simpl;
        try (rewrite Hc; simpl); try done.
      * by inversion IH.
      * by inversion IH.
Qed.

Lemma split_append sep piece s :
  contains sep piece = false →
  split sep (piece +:+ String sep s) = piece :: split sep s.
Proof.
  induction piece as [|c piece IH]; simpl; intros Hp.
  - by rewrite Ascii.eqb_refl.
  - apply orb_false_iff in Hp as [Hc Hp]. by rewrite Hc, IH.
Qed.

Lemma split_piece sep piece :
  contains sep piece = false → split sep piece = [piece].
Proof.
  induction piece as [|c piece IH]; simpl; intros Hp; [done|].
  apply orb_false_iff in Hp as [Hc Hp]. by rewrite Hc, IH.
Qed.

Lemma split_join sep pieces :
  pieces ≠ [] →
  Forall (λ piece, contains sep piece = false) pieces →
  split sep (join sep pieces) = pieces.
Proof.
  induction pieces as [|p [|q rest] IH]; intros Hne Hall; [done| |].
  - apply split_piece. by inversion Hall.
  - inversion Hall as [|?? Hp Hrest]; subst.
    change (join sep (p :: q :: rest)) with (p +:+ String sep (join sep (q :: rest))).
    rewrite split_append by done. f_equal. by apply IH.
Qed.

Lemma join_split sep s : join sep (split sep s) = s.
Proof.
  induction s as [|c s IH]; simpl; [done|].
  destruct (Ascii.eqb c sep) eqn:Hc.
  - apply Ascii.eqb_eq in Hc as ->.
    pose proof (split_nonempty sep s).
    destruct (split sep s) as [|q rest]; [done|]. simpl in *. by rewrite IH.
  - destruct (split sep s) as [|q rest] eqn:Hs; [by destruct (split_nonempty sep s)|].
    rewrite <- IH. by destruct rest.
Qed.


Lemma contains_append c a b :
  contains c (a +:+ b) = contains c a || contains c b.
Proof.
  induction a as [|x a IH]; simpl; [done|]. by rewrite IH, orb_assoc.
Qed.

Lemma lstrip_no c s : contains c s = false → contains c (lstrip s) = false.
Proof.
  induction s as [|a s IH]; simpl; [done|]. intros Hs.
  destruct (isspace a); [|done].
  apply IH. by apply orb_false_iff in Hs as [_ ?].
Qed.

Lemma rstrip_no c s : contains c s = false → contains c (rstrip s) = false.
Proof.
  induction s as [|a s IH]; simpl; [done|]. intros Hs.
  apply orb_false_iff in Hs as [Ha Hs]. specialize (IH Hs).
  destruct (rstrip s) as [|b r].
  - destruct (isspace a); simpl; [done|]. by rewrite Ha.
  - simpl in *. by rewrite Ha.
Qed.

Lemma strip_no c s : contains c s = false → contains c (strip s) = false.
Proof. intros. by apply lstrip_no, rstrip_no. Qed.

Lemma rstrip_idemp s : rstrip (rstrip s) = rstrip s.
Proof.
  induction s as [|a s IH]; simpl; [done|].
  destruct (rstrip s) as [|b r] eqn:Hr.
  - destruct (isspace a) eqn:Ha; simpl; [done|]. by rewrite Ha.
  - change (rstrip (String a (String b r)))
      with (match rstrip (String b r) with
            | EmptyString => if isspace a then EmptyString else String a EmptyString
            | x => String a x
            end).
    by rewrite IH.
Qed.

Lemma rstrip_lstrip s : rstrip (lstrip s) = lstrip (rstrip s).
Proof.
  induction s as [|a s IH]; [done|].
  change (lstrip (String a s)) with (if isspace a then lstrip s else String a s).
  change (rstrip (String a s))
    with (match rstrip s with
          | EmptyString => if isspace a then EmptyString else String a EmptyString
          | x => String a x
          end).
  destruct (isspace a) eqn:Ha.
  - rewrite IH. destruct (rstrip s) as [|b r]; [done|]. simpl. by rewrite Ha.
  - change (rstrip (String a s))
      with (match rstrip s with
            | EmptyString => if isspace a then EmptyString else String a EmptyString
            | x => String a x
            end).
    rewrite Ha. destruct (rstrip s); simpl; by rewrite Ha.
Qed.

Lemma rstrip_strip s : rstrip (strip s) = strip s.
Proof. unfold strip. by rewrite rstrip_lstrip, rstrip_idemp. Qed.

(** A suffix of a string without trailing whitespace has none either. *)
Lemma rstrip_suffix a b : rstrip (a +:+ b) = a +:+ b → rstrip b = b.
Proof.
  induction a as [|c a IH]; simpl; [done|].
  destruct (rstrip (a +:+ b)) as [|x r] eqn:Hr.
  - destruct (isspace c); [done|]. intros [= Hab].
    destruct a; [by apply IH | done].
  - intros [= Hab]. by apply IH.
Qed.

Lemma lstrip_spaces ws v : every isspace ws = true → lstrip (ws +:+ v) = lstrip v.
Proof.
  induction ws as [|c ws IH]; simpl; [done|].
  intros [Hc Hws]%andb_true_iff. rewrite Hc. by apply IH.
Qed.

Lemma lstrip_idemp s : lstrip (lstrip s) = lstrip s.
Proof.
  induction s as [|c s IH]; simpl; [done|].
  destruct (isspace c) eqn:Hc; [done|]. simpl. by rewrite Hc.
Qed.

(** [lstrip] takes a run of whitespace off the front. *)
Lemma lstrip_split s :
  ∃ ws, every isspace ws = true ∧ s = ws +:+ lstrip s.
Proof.
  induction s as [|c s (ws & Hws & Hs)]; simpl.
  - by exists EmptyString.
  - destruct (isspace c) eqn:Hc.
    + exists (String c ws). simpl. rewrite Hc, Hws. split; [done|].
      change (String c s = String c (ws +:+ lstrip s)). by f_equal.
    + by exists EmptyString.
Qed.

(** ** The pattern *)

Lemma letters_split s k r : letters s = (k, r) → s = k +:+ r ∧ every isalpha k = true.
Proof.
  revert k r. induction s as [|c s IH]; simpl; intros k r.
  - by intros [= <- <-].
  - destruct (isalpha c) eqn:Hc.
    + destruct (letters s) as [k' r'] eqn:Hl. intros [= <- <-].
      destruct (IH _ _ eq_refl) as [-> Hk]. simpl. by rewrite Hc, Hk.
    + by intros [= <- <-].
Qed.

Lemma letters_run k r :
  every isalpha k = true →
  match r with EmptyString => True | String c _ => isalpha c = false end →
  letters (k +:+ r) = (k, r).
Proof.
  induction k as [|c k IH]; simpl; intros Hk Hr.
  - destruct r as [|c r]; [done|]. simpl. by rewrite Hr.
  - apply andb_true_iff in Hk as [Hc Hk]. by rewrite Hc, IH.
Qed.

Lemma dot_star_end_no_LF s : contains LF s = false → dot_star_end s = Some s.
Proof.
  induction s as [|c s IH]; simpl; [done|].
  intros [Hc Hs]%orb_false_iff. by rewrite Hc, IH.
Qed.

(** On a string without line feed, the match is the decomposition the
    pattern describes, with the longest key and the longest whitespace run:
    [k], a colon, whitespace, then [v], which does not start with
    whitespace. *)
Lemma KEY_VALUE_RE_match_Some s k v :
  contains LF s = false →
  KEY_VALUE_RE_match s = Some (k, v) ↔
    k ≠ EmptyString ∧ every isalpha k = true ∧ lstrip v = v ∧
    ∃ ws, every isspace ws = true ∧ s = k +:+ ":" +:+ ws +:+ v.
Proof.
  intros Hs. unfold KEY_VALUE_RE_match. split.
  - destruct (letters s) as [k' r] eqn:Hl.
    destruct (letters_split _ _ _ Hl) as [-> Hk'].
    destruct k' as [|k0 k']; [done|].
    destruct r as [|c rest]; [done|].
    destruct (decide (c = ":"%char)) as [->|Hc];
      [|by repeat (destruct c as [[] [] [] [] [] [] [] []]; try done)].
    assert (contains LF (lstrip rest) = false) as Hrest.
    { apply lstrip_no. rewrite contains_append in Hs.
      by apply orb_false_iff in Hs as [_ Hs]. }
    rewrite dot_star_end_no_LF by done. intros [= <- <-].
    split; [done|]. split; [done|]. split; [apply lstrip_idemp|].
    destruct (lstrip_split rest) as (ws & Hws & Hrest'). exists ws.
    split; [done|]. simpl. by rewrite <- Hrest'.
  - intros (Hk & Hkl & Hv & ws & Hws & ->).
    rewrite letters_run by done.
    destruct k as [|k0 k]; [done|]. simpl.
    rewrite !lstrip_spaces, Hv by done.
    rewrite dot_star_end_no_LF; [done|].
    rewrite !contains_append in Hs.
    by apply orb_false_iff in Hs as [_ [_ [_ ?]%orb_false_iff]%orb_false_iff].
Qed.

(** A string without line feed fails to match exactly when it is not a key
    of letters, a colon, whitespace and a rest, however it is cut. *)
Lemma KEY_VALUE_RE_match_None s :
  contains LF s = false →
  KEY_VALUE_RE_match s = None ↔
    ¬ ∃ k ws v, k ≠ EmptyString ∧ every isalpha k = true
                ∧ every isspace ws = true ∧ s = k +:+ ":" +:+ ws +:+ v.
Proof.
  intros Hs. split.
  - intros Hnone (k & ws & v & Hk & Hkl & Hws & Heq).
    destruct (lstrip_split v) as (ws' & Hws' & Hv).
    assert (KEY_VALUE_RE_match s = Some (k, lstrip v)) as Hsome.
    { apply KEY_VALUE_RE_match_Some; [done|].
      split; [done|]. split; [done|]. split; [apply lstrip_idemp|].
      exists (ws +:+ ws'). rewrite every_append, Hws, Hws'. split; [done|].
      by rewrite append_assoc, <- Hv. }
    congruence.
  - intros Hno. destruct (KEY_VALUE_RE_match s) as [[k v]|] eqn:Hm; [|done].
    destruct Hno. apply KEY_VALUE_RE_match_Some in Hm as (? & ? & _ & ws & ? & ?);
      [|done].
    by exists k, ws, v.
Qed.

(** ** The loop of the parser *)

Lemma KEY_VALUE_RE_match_empty : KEY_VALUE_RE_match EmptyString = None.
Proof. done. Qed.

Lemma blank_no_pair line : blank line → line_pair line = None.
Proof. unfold blank, line_pair. by intros ->. Qed.

Lemma parse_line_blank line self : blank line → parse_line line self = Ok self.
Proof. unfold blank, parse_line. by intros ->. Qed.

Lemma parse_line_pair line key v self :
  line_pair line = Some (key, v) →
  parse_line line self =
    if String.eqb key "ERR" then Raise (raise_error v) else Ok (store key v self).
Proof.
  unfold line_pair, parse_line. intros Hm.
  destruct (strip line); [done|]. by rewrite Hm.
Qed.

Lemma parse_line_no_match line self :
  ¬ blank line → line_pair line = None →
  parse_line line self = Raise (AttributeError "group").
Proof.
  unfold blank, line_pair, parse_line. intros Hb Hm.
  destruct (strip line); [done|]. by rewrite Hm.
Qed.

Lemma parse_lines_app before after self :
  parse_lines (before ++ after) self =
    self' ← parse_lines before self; parse_lines after self'.
Proof.
  revert self. induction before as [|line before IH]; intros self; simpl; [done|].
  destruct (parse_line line self); simpl; [apply IH | done].
Qed.

Lemma store_lookup key v self k :
  store key v self !! k =
    if decide (key = k) then extend (self !! key) v else self !! k.
Proof.
  unfold store, extend.
  destruct (self !! key) as [[s|l]|] eqn:Hk; rewrite lookup_insert;
    by case_decide.
Qed.

Lemma pairs_cons line lines :
  pairs (line :: lines) =
    match line_pair line with
    | Some p => p :: pairs lines
    | None => pairs lines
    end.
Proof. unfold pairs. simpl. by destruct (line_pair line). Qed.

Lemma occurrences_cons key line lines :
  occurrences key (line :: lines) =
    match line_pair line with
    | Some (k, v) =>
        if decide (k = key) then v :: occurrences key lines
        else occurrences key lines
    | None => occurrences key lines
    end.
Proof.
  unfold occurrences. rewrite pairs_cons.
  destruct (line_pair line) as [[k v]|]; [|done].
  rewrite filter_cons. simpl. by case_decide.
Qed.

(** The loop, key by key: what it leaves under [key] is what it found there,
    extended by each value received for [key], in the order received. *)
Lemma parse_lines_lookup lines self d key :
  parse_lines lines self = Ok d →
  d !! key = foldl extend (self !! key) (occurrences key lines).
Proof.
  revert self. induction lines as [|line lines IH]; intros self; simpl.
  - by intros [= ->].
  - rewrite occurrences_cons.
    destruct (decide (blank line)) as [Hb|Hb].
    + rewrite parse_line_blank, blank_no_pair by done. apply IH.
    + destruct (line_pair line) as [[k v]|] eqn:Hp.
      * rewrite (parse_line_pair _ _ _ _ Hp).
        destruct (String.eqb k "ERR"); [done|]. simpl. intros Hd.
        rewrite (IH _ Hd), store_lookup. by case_decide; subst.
      * by rewrite parse_line_no_match.
Qed.

Lemma foldl_extend_list l vs :
  foldl extend (Some (VList l)) vs = Some (VList (l ++ vs)).
Proof.
  revert l. induction vs as [|v vs IH]; intros l; simpl.
  - by rewrite app_nil_r.
  - change (foldl extend (Some (VList (l ++ [v]))) vs = Some (VList (l ++ v :: vs))).
    by rewrite IH, <- app_assoc.
Qed.

Lemma foldl_extend_collected vs : foldl extend None vs = collected vs.
Proof.
  destruct vs as [|v1 [|v2 vs]]; [done..|].
  change (foldl extend (Some (VList [v1; v2])) vs = Some (VList ([v1; v2] ++ vs))).
  apply foldl_extend_list.
Qed.

Lemma ClickatellResponse_lookup data d key :
  ClickatellResponse data = Ok d →
  d !! key = collected (occurrences key (split LF data)).
Proof.
  intros Hd. rewrite <- foldl_extend_collected.
  by rewrite (parse_lines_lookup _ _ _ key Hd), lookup_empty.
Qed.

(** The loop ends without an exception exactly on the texts whose lines are
    all blank or matching, none with the key [ERR]. *)
Lemma parse_lines_Ok lines self :
  well_formed lines → "ERR" ∉ keys lines →
  ∃ d, parse_lines lines self = Ok d.
Proof.
  unfold well_formed, keys. revert self.
  induction lines as [|line lines IH]; intros self Hwf Herr; simpl; [by eexists|].
  inversion Hwf as [|?? Hline Hrest]; subst. rewrite pairs_cons in Herr.
  destruct Hline as [Hb|[[k v] Hp]].
  - rewrite parse_line_blank by done. simpl.
    rewrite blank_no_pair in Herr by done. by apply IH.
  - rewrite Hp in Herr. rewrite (parse_line_pair _ _ _ _ Hp).
    rewrite fmap_cons, not_elem_of_cons in Herr. destruct Herr as [Hk Herr].
    destruct (String.eqb_spec k "ERR") as [->|_]; [done|]. simpl. by apply IH.
Qed.

Lemma parse_lines_Ok_inv lines self d :
  parse_lines lines self = Ok d → well_formed lines ∧ "ERR" ∉ keys lines.
Proof.
  unfold well_formed, keys. revert self.
  induction lines as [|line lines IH]; intros self.
  - intros _. split; [constructor | apply not_elem_of_nil].
  - rewrite pairs_cons. simpl. destruct (decide (blank line)) as [Hb|Hb].
    + rewrite parse_line_blank, blank_no_pair by done. simpl.
      intros [Hwf Herr]%IH. split; [constructor; auto | done].
    + destruct (line_pair line) as [[k v]|] eqn:Hp.
      * rewrite (parse_line_pair _ _ _ _ Hp).
        destruct (String.eqb_spec k "ERR") as [->|Hk]; [done|]. simpl.
        intros [Hwf Herr]%IH. split.
        -- constructor; [right; by rewrite Hp | done].
        -- rewrite ?fmap_cons, not_elem_of_cons. split; [by intros <- | done].
      * by rewrite parse_line_no_match.
Qed.

(** An [ERR] line ends the loop: what follows it is not read, and what was
    stored before it is not part of the outcome. *)
Lemma parse_lines_ERR before line after v self :
  line_pair line = Some ("ERR", v) →
  parse_lines (before ++ line :: after) self =
    _ ← parse_lines before self; Raise (raise_error v).
Proof.
  intros Hp. rewrite parse_lines_app.
  destruct (parse_lines before self) as [acc|e]; simpl; [|done].
  by rewrite (parse_line_pair _ _ _ _ Hp).
Qed.

(** A line that is not blank and does not match ends the loop too. *)
Lemma parse_lines_no_match before line after self :
  ¬ blank line → line_pair line = None →
  parse_lines (before ++ line :: after) self =
    _ ← parse_lines before self; Raise (AttributeError "group").
Proof.
  intros Hb Hp. rewrite parse_lines_app.
  destruct (parse_lines before self) as [acc|e]; simpl; [|done].
  by rewrite parse_line_no_match.
Qed.

(** ** The [ERR] branch *)

Lemma raise_error_no_comma v :
  contains "," v = false → raise_error v = ClickatellError None (strip v).
Proof. unfold raise_error. by intros ->. Qed.

(** With exactly one comma, the code is what precedes it and the message
    what follows it, both trimmed. *)
Lemma raise_error_one_comma code message :
  contains "," code = false → contains "," message = false →
  raise_error (code +:+ "," +:+ message)
  = ClickatellError (Some (strip code)) (strip message).
Proof.
  intros Hc Hm. unfold raise_error.
  change (code +:+ "," +:+ message) with (code +:+ String "," message).
  rewrite contains_append, Hc. simpl.
  by rewrite split_append, split_piece.
Qed.

(** With two commas or more, the unpacking into two names fails. *)
Lemma raise_error_more_commas code message rest :
  contains "," code = false → contains "," message = false →
  raise_error (code +:+ "," +:+ message +:+ "," +:+ rest) = ValueError.
Proof.
  intros Hc Hm. unfold raise_error.
  change (code +:+ "," +:+ message +:+ "," +:+ rest)
    with (code +:+ String "," (message +:+ String "," rest)).
  rewrite contains_append, Hc. simpl.
  rewrite !split_append by done.
  pose proof (split_nonempty "," rest). by destruct (split "," rest).
Qed.

Example ERR_with_code :
  ClickatellResponse "ERR: 120, Invalid login"
  = Raise (ClickatellError (Some "120") "Invalid login").
Proof. reflexivity. Qed.

Example ERR_without_code :
  ClickatellResponse "ERR: API quota exceeded"
  = Raise (ClickatellError None "API quota exceeded").
Proof. reflexivity. Qed.

Example blank_lines_only :
  ClickatellResponse (nl +:+ "  " +:+ nl) = Ok ∅.
Proof. reflexivity. Qed.

Example batch_ids :
  ClickatellResponse ("ID: m1" +:+ nl +:+ "ID: m2" +:+ nl)
  = Ok {[ "ID" := VList ["m1"; "m2"] ]}.
Proof. by vm_compute. Qed.

(** The value read on a line is what follows the colon, trimmed. *)
Lemma line_pair_trimmed line key v :
  contains LF line = false →
  line_pair line = Some (key, v) →
  ∃ rest, strip line = key +:+ ":" +:+ rest ∧ v = strip rest.
Proof.
  unfold line_pair. intros Hline Hp.
  apply KEY_VALUE_RE_match_Some in Hp as (_ & _ & Hv & ws & Hws & Hs);
    [|by apply strip_no].
  exists (ws +:+ v). split; [done|].
  pose proof (rstrip_strip line) as Hr. rewrite Hs in Hr.
  apply rstrip_suffix in Hr. rewrite append_String, append_empty in Hr.
  apply (rstrip_suffix (String ":" EmptyString)) in Hr.
  unfold strip. by rewrite Hr, lstrip_spaces.
Qed.

Lemma lines_no_LF data line : line ∈ split LF data → contains LF line = false.
Proof.
  intros Hl. by apply (proj1 (Forall_forall _ _) (split_no_sep LF data)).
Qed.

(** With keys that do not repeat, each key holds the string of its line. *)
Lemma filter_key_absent (l : list (string * string)) key :
  key ∉ l.*1 → filter (λ p, p.1 = key) l = [].
Proof.
  induction l as [|[k v] l IH]; [done|]. rewrite fmap_cons, not_elem_of_cons.
  intros [Hk Hl]. rewrite filter_cons. simpl.
  case_decide; [by subst | by apply IH].
Qed.

Lemma collected_unique (l : list (string * string)) key :
  NoDup l.*1 →
  collected (filter (λ p, p.1 = key) l).*2
  = VStr <$> (list_to_map l : gmap string string) !! key.
Proof.
  induction l as [|[k v] l IH]; [done|].
  rewrite fmap_cons, NoDup_cons. intros [Hk Hl].
  rewrite filter_cons. simpl. case_decide as Hkey.
  - subst key. rewrite filter_key_absent by done. by rewrite lookup_insert_eq.
  - rewrite lookup_insert_ne by done. by apply IH.
Qed.

Lemma pairs_length lines :
  well_formed lines →
  length (pairs lines) = length (filter (λ line, ¬ blank line) lines).
Proof.
  unfold well_formed. induction 1 as [|line lines Hline _ IH]; [done|].
  rewrite pairs_cons, filter_cons.
  destruct Hline as [Hb|[p Hp]].
  - rewrite blank_no_pair by done. by case_decide.
  - rewrite Hp. case_decide as Hb; simpl; [by rewrite IH|].
    by rewrite blank_no_pair in Hp.
Qed.

(** ** The claims on the parser *)

(** C1, as amended. For every response text of which every line is blank or
    matches the pattern, with no [ERR] line and no key twice, parsing returns
    a mapping with exactly one entry per non-blank line, each line's key
    mapped to the single string that follows the colon, trimmed. (The
    mapping carries no order of its keys.) *)
Theorem unique_keys_are_strings data :
  let lines := split LF data in
  well_formed lines → "ERR" ∉ keys lines → NoDup (keys lines) →
  ∃ d, ClickatellResponse data = Ok d
    ∧ d = VStr <$> list_to_map (pairs lines)
    ∧ (∀ key x, d !! key = Some x ↔ ∃ v, x = VStr v ∧ (key, v) ∈ pairs lines)
    ∧ size d = length (filter (λ line, ¬ blank line) lines)
    ∧ (∀ line key v, line ∈ lines → line_pair line = Some (key, v) →
         ∃ rest, strip line = key +:+ ":" +:+ rest ∧ v = strip rest).
Proof.
  intros lines Hwf Herr Hnd.
  destruct (parse_lines_Ok lines ∅ Hwf Herr) as [d Hd]. exists d.
  assert (d = VStr <$> list_to_map (pairs lines)) as Heq.
  { apply map_eq. intros key. rewrite (ClickatellResponse_lookup data d key Hd).
    rewrite lookup_fmap. by apply collected_unique. }
  split; [done|]. split; [done|]. split; [|split].
  - intros key x. rewrite Heq, lookup_fmap, fmap_Some. split.
    + intros (v & Hv & ->). exists v. split; [done|].
      by apply elem_of_list_to_map_2.
    + intros (v & -> & Hv). exists v. split; [|done].
      by apply elem_of_list_to_map_1.
  - rewrite Heq, map_size_fmap, map_size_list_to_map by done.
    by apply pairs_length.
  - intros line key v Hline Hp. apply line_pair_trimmed; [|done].
    by apply (lines_no_LF data).
Qed.

(** C2. For every response text without an [ERR] line: parsing returns a
    mapping as soon as every line is blank or matches, and in the mapping
    returned, a key received two or more times holds the list of its values
    in the order received, and a key received exactly once holds a single
    string (a key never received is absent). *)
Theorem repeated_keys_are_lists data :
  let lines := split LF data in
  "ERR" ∉ keys lines →
  (well_formed lines → ∃ d, ClickatellResponse data = Ok d)
  ∧ ∀ d, ClickatellResponse data = Ok d →
      ∀ key,
        (2 ≤ length (occurrences key lines) →
           d !! key = Some (VList (occurrences key lines)))
        ∧ (∀ v, occurrences key lines = [v] → d !! key = Some (VStr v))
        ∧ (occurrences key lines = [] → d !! key = None).
Proof.
  intros lines Herr. split.
  - intros Hwf. by apply parse_lines_Ok.
  - intros d Hd key. rewrite (ClickatellResponse_lookup data d key Hd).
    fold lines. destruct (occurrences key lines) as [|v1 [|v2 vs]]; simpl.
    + split; [lia|]. by split.
    + split; [lia|]. split; [by intros ? [= ->] | done].
    + split; [done|]. by split.
Qed.

(** C3, at an [ERR] line whose message holds a comma: the unpacking of the
    split value into two names raises [ValueError], where the claim has the
    code ["120"] and the message ["Invalid login, retry"]. *)
Theorem ERR_message_with_comma :
  ClickatellResponse "ERR: 120, Invalid login, retry" = Raise ValueError.
Proof. reflexivity. Qed.

(** C4, as amended. For every response text with an [ERR] line, parsing
    raises and returns no mapping, partial or not; the outcome is that of
    the text cut after the [ERR] line, so no further line is read and what
    had been stored is not part of it. When the lines before the [ERR] line
    were all skipped or stored without exception and the value of the line
    has at most one comma, the outcome is the typed error of that line:
    without a comma, no code and the trimmed value as message; with one
    comma, the code before it and the message after it, both trimmed. *)
Theorem ERR_line_ends_parsing data before line after v :
  split LF data = before ++ line :: after →
  line_pair line = Some ("ERR", v) →
  (∃ e, ClickatellResponse data = Raise e)
  ∧ ClickatellResponse data = ClickatellResponse (join LF (before ++ [line]))
  ∧ (∀ acc, parse_lines before ∅ = Ok acc →
       (contains "," v = false →
          ClickatellResponse data = Raise (ClickatellError None (strip v)))
       ∧ (∀ code message,
            v = code +:+ "," +:+ message →
            contains "," code = false → contains "," message = false →
            ClickatellResponse data
            = Raise (ClickatellError (Some (strip code)) (strip message)))).
Proof.
  intros Hsplit Hp. unfold ClickatellResponse, _parse_response.
  assert (split LF (join LF (before ++ [line])) = before ++ [line]) as ->.
  { apply split_join; [by destruct before|].
    pose proof (split_no_sep LF data) as Hall. rewrite Hsplit in Hall.
    apply Forall_app in Hall as [Hb Hl]. apply Forall_app. split; [done|].
    constructor; [by inversion Hl | constructor]. }
  rewrite Hsplit, !(parse_lines_ERR _ _ _ _ _ Hp).
  destruct (parse_lines before ∅) as [acc|e]; simpl.
  - split; [by eexists|]. split; [done|]. intros _ _. split.
    + intros Hv. by rewrite raise_error_no_comma.
    + intros code message -> Hc Hm. by rewrite raise_error_one_comma.
  - split; [by eexists|]. by split.
Qed.

(** C9. For every response text with a line that is not blank and does not
    match the pattern, parsing raises and returns no mapping: the line is not
    dropped. When the lines before it were stored without exception, the
    exception is the [AttributeError] of the failed match. *)
Theorem unmatched_line_raises data before line after :
  split LF data = before ++ line :: after →
  ¬ blank line → line_pair line = None →
  (∃ e, ClickatellResponse data = Raise e)
  ∧ (∀ acc, parse_lines before ∅ = Ok acc →
       ClickatellResponse data = Raise (AttributeError "group")).
Proof.
  intros Hsplit Hb Hp. unfold ClickatellResponse, _parse_response.
  rewrite Hsplit, (parse_lines_no_match _ _ _ _ Hb Hp).
  destruct (parse_lines before ∅) as [acc|e]; simpl.
  - split; [by eexists | done].
  - split; [by eexists | done].
Qed.

(** ** The client *)

Lemma requests_app l1 l2 : requests (l1 ++ l2) = requests l1 ++ requests l2.
Proof. apply omap_app. Qed.

Lemma METHODS_size : size METHODS = 15.
Proof. by vm_compute. Qed.

Lemma getattribute_session_id self :
  __getattribute__ self "_session_id" =
    match _session_id self with
    | Some tok => Ok (SessionId tok)
    | None => Raise (AttributeError "_session_id")
    end.
Proof.
  unfold __getattribute__.
  assert (METHODS !! "_session_id" = None) as -> by (by vm_compute).
  done.
Qed.

Lemma getattribute_auth self :
  __getattribute__ self "auth" = Ok (Handler "http/auth").
Proof.
  unfold __getattribute__.
  by assert (METHODS !! "auth" = Some "http/auth") as -> by (by vm_compute).
Qed.

Section ClientProperties.
Context `{Urllib}.

(** The handler, reply by reply. *)
Lemma _handler_run self method args w :
  let url := "/" +:+ method +:+ "?" +:+ urlencode (parameters self args) in
  _handler self method args w =
    match inbox w with
    | Refused :: rest =>
        (Raise TransportError, World (events w ++ [Connect]) rest (is_open w))
    | Body data :: rest =>
        match ClickatellResponse data with
        | Ok result =>
            (Ok result,
             World (events w ++ [Connect; Request "GET" url; Close]) rest false)
        | Raise e =>
            (Raise e, World (events w ++ [Connect; Request "GET" url]) rest true)
        end
    | Broken :: rest =>
        (Raise TransportError,
         World (events w ++ [Connect; Request "GET" url]) rest true)
    | [] =>
        (Raise TransportError,
         World (events w ++ [Connect; Request "GET" url]) [] true)
    end.
Proof.
  unfold _handler, parameters. rewrite getattribute_session_id.
  run_M.
  destruct (_session_id self) as [tok|], (inbox w) as [|[data| |] rest];
    simpl; rewrite <- ?app_assoc; try done;
    destruct (ClickatellResponse data); simpl; by rewrite <- ?app_assoc.
Qed.

Lemma _handler_requests self method args w :
  requests (events (_handler self method args w).2) =
    requests (events w) ++
      if refused w then []
      else ["/" +:+ method +:+ "?" +:+ urlencode (parameters self args)].
Proof.
  rewrite _handler_run. unfold refused.
  destruct (inbox w) as [|[data| |] rest]; simpl;
    try destruct (ClickatellResponse data); simpl;
    by rewrite requests_app.
Qed.

(** On a successful reply the handler closes the connection. *)
Lemma _handler_closes self method args w result w' :
  _handler self method args w = (Ok result, w') →
  is_open w' = false ∧ last (events w') = Some Close.
Proof.
  rewrite _handler_run.
  destruct (inbox w) as [|[data| |] rest]; try done.
  destruct (ClickatellResponse data); [|done]. intros [= _ <-]. simpl.
  split; [done|]. by rewrite last_app.
Qed.

(** When the parser raises, the handler has connected and sent the request,
    and does not close. *)
Lemma _handler_raises_open self method args w data rest e :
  inbox w = Body data :: rest →
  ClickatellResponse data = Raise e →
  ∃ url,
    _handler self method args w =
      (Raise e, World (events w ++ [Connect; Request "GET" url]) rest true).
Proof.
  intros Hw He. rewrite _handler_run, Hw, He. by eexists.
Qed.

Lemma __init___run self user password api_id w :
  __init__ self user password api_id w =
    match _handler self "http/auth" (credentials user password api_id)
            (World (events w) (inbox w) false) with
    | (Ok auth, w') =>
        match auth !! "OK" with
        | Some tok => (Ok {| _session_id := Some tok |}, w')
        | None => (Raise (KeyError "OK"), w')
        end
    | (Raise e, w') => (Raise e, w')
    end.
Proof.
  unfold __init__. rewrite getattribute_auth.
  unfold mbind, M_bind at 1, HTTPSConnection. fold (credentials user password api_id).
  unfold M_bind.
  destruct (_handler self "http/auth" _ _) as [[auth|e] w']; [|done].
  by destruct (auth !! "OK").
Qed.

Lemma getattribute_method self name method :
  METHODS !! name = Some method →
  __getattribute__ self name = Ok (Handler method).
Proof. unfold __getattribute__. by intros ->. Qed.

(** A name of the table calls the handler of its path. *)
Lemma invoke_method self name method kwargs w :
  METHODS !! name = Some method →
  invoke self name kwargs w =
    Some match _handler self method (VStr <$> kwargs) w with
         | (Ok d, w') => (Ok (Response d), w')
         | (Raise e, w') => (Raise e, w')
         end.
Proof.
  intros Hm. unfold invoke. rewrite (getattribute_method _ _ _ Hm). simpl.
  unfold mbind, M_bind. by destruct (_handler _ _ _ _) as [[d|e] w'].
Qed.

Lemma invoke_method_requests self name method kwargs w :
  METHODS !! name = Some method →
  ∃ r w', invoke self name kwargs w = Some (r, w')
    ∧ requests (events w') =
        requests (events w) ++
          if refused w then []
          else ["/" +:+ method +:+ "?"
                +:+ urlencode (parameters self (VStr <$> kwargs))].
Proof.
  intros Hm. rewrite (invoke_method _ _ _ _ _ Hm).
  pose proof (_handler_requests self method (VStr <$> kwargs) w) as Hr.
  destruct (_handler _ _ _ _) as [[d|e] w']; by do 2 eexists.
Qed.

(** C5. Constructing a client sends exactly one request, the [auth]
    operation with the parameters user, password and api_id and no
    session_id; the token stored is the value of the key [OK] of the
    response to it; and every later call of an operation of the table sends
    its parameters with exactly that token under session_id. *)
Theorem construction_authenticates_once user password api_id w c w' :
  Clickatell_new user password api_id w = (Ok c, w') →
  ∃ data auth tok,
    inbox w = Body data :: inbox w'
    ∧ events w' =
        events w ++
          [Connect;
           Request "GET"
             ("/http/auth?" +:+ urlencode (credentials user password api_id));
           Close]
    ∧ credentials user password api_id !! "session_id" = None
    ∧ ClickatellResponse data = Ok auth
    ∧ auth !! "OK" = Some tok
    ∧ _session_id c = Some tok
    ∧ ∀ name method kwargs w1,
        METHODS !! name = Some method →
        ∃ r w2, invoke c name kwargs w1 = Some (r, w2)
          ∧ requests (events w2) =
              requests (events w1) ++
                if refused w1 then []
                else ["/" +:+ method +:+ "?"
                      +:+ urlencode (<["session_id" := tok]> (VStr <$> kwargs))].
Proof.
  unfold Clickatell_new. rewrite __init___run, _handler_run. simpl.
  destruct (inbox w) as [|[data| |] rest] eqn:Hw; try done.
  destruct (ClickatellResponse data) as [auth|e] eqn:Hauth; [|done].
  destruct (auth !! "OK") as [tok|] eqn:Htok; [|done].
  intros [= <- <-]. exists data, auth, tok. simpl.
  repeat split; try done.
  intros name method kwargs w1 Hm.
  apply (invoke_method_requests {| _session_id := Some tok |} _ _ kwargs w1 Hm).
Qed.

(** C10. After construction, whatever the caller gives under session_id is
    discarded without an exception: the parameters encoded into the query
    string hold the stored token under that key, and the call is the same
    call as without the caller's value. *)
Theorem stored_token_wins c tok name method kwargs w x :
  _session_id c = Some tok →
  METHODS !! name = Some method →
  let supplied := <["session_id" := x]> kwargs in
  let sent := <["session_id" := tok]> (VStr <$> delete "session_id" kwargs) in
  sent !! "session_id" = Some tok
  ∧ (∃ r w', invoke c name supplied w = Some (r, w')
       ∧ requests (events w') =
           requests (events w) ++
             if refused w then []
             else ["/" +:+ method +:+ "?" +:+ urlencode sent])
  ∧ invoke c name supplied w = invoke c name (delete "session_id" kwargs) w.
Proof.
  intros Htok Hm supplied sent.
  assert (parameters c (VStr <$> supplied) = sent) as Hsent.
  { unfold parameters, supplied, sent. rewrite Htok.
    by rewrite fmap_insert, insert_insert_eq, fmap_delete, insert_delete_eq. }
  assert (parameters c (VStr <$> delete "session_id" kwargs) = sent) as Hsent'.
  { unfold parameters, sent. by rewrite Htok. }
  split; [apply lookup_insert_eq|]. split.
  - rewrite <- Hsent. by apply invoke_method_requests.
  - rewrite !(invoke_method _ _ _ _ _ Hm), !_handler_run. simpl.
    by rewrite Hsent, Hsent'.
Qed.

(** C7, as amended. A handler is what the lookup of a name gives exactly
    when the name is in the endpoint table, and it is the handler of the
    table's path; a name outside the table is looked up as an ordinary
    attribute of the object; and when the object has no such attribute, the
    call raises [AttributeError] and nothing is done on the connection. *)
Theorem unknown_name_raises_before_request c name kwargs w :
  (∀ method,
     __getattribute__ c name = Ok (Handler method) ↔ METHODS !! name = Some method)
  ∧ (METHODS !! name = None →
       __getattribute__ c name = object_getattribute c name)
  ∧ (METHODS !! name = None → hasattr c name = false →
       invoke c name kwargs w = Some (Raise (AttributeError name), w)).
Proof.
  unfold hasattr, invoke, __getattribute__, _create_handler.
  destruct (METHODS !! name) as [m|] eqn:Hm.
  - split; [|by split]. intros method. split; congruence.
  - split; [|split; [done|]].
    + intros method. split; [|done]. unfold object_getattribute.
      repeat case_decide; try done. by destruct (_session_id c).
    + intros _. unfold object_getattribute.
      repeat case_decide; try done. by destruct (_session_id c).
Qed.

End ClientProperties.

(** C6, on a reply with an [ERR] line: the handler raises the error of the
    line after [connect] and [request], and the connection is left open; no
    [close] is called. *)
Theorem ERR_reply_leaves_connection_open :
  let c := {| _session_id := Some (VStr "abc123") |} in
  let w := World [] [Body "ERR: 001, Authentication failed"] false in
  _handler (H := urllib) c "http/ping" ∅ w =
    (Raise (ClickatellError (Some "001") "Authentication failed"),
     World [Connect; Request "GET" "/http/ping?session_id=abc123"] [] true).
Proof. by vm_compute. Qed.

(** C8, as amended. The endpoint table has exactly fifteen distinct names,
    each mapped to its path, among them auth, sendmsg, getbalance and
    routeCoverage with the paths below. *)
Theorem METHODS_has_fifteen_names :
  size METHODS = 15
  ∧ length METHODS_literal = 15
  ∧ NoDup METHODS_literal.*1
  ∧ (∀ name method, METHODS !! name = Some method ↔ (name, method) ∈ METHODS_literal)
  ∧ METHODS !! "auth" = Some "http/auth"
  ∧ METHODS !! "sendmsg" = Some "http/sendmsg"
  ∧ METHODS !! "getbalance" = Some "http/getbalance"
  ∧ METHODS !! "routeCoverage" = Some "utils/routeCoverage.php".
Proof.
  assert (NoDup METHODS_literal.*1) as Hnd.
  { compute_done. }
  split; [apply METHODS_size|]. split; [done|]. split; [done|]. split.
  - intros name method. unfold METHODS. split.
    + apply elem_of_list_to_map_2.
    + by apply elem_of_list_to_map_1.
  - repeat split; by vm_compute.
Qed.

(** C8 as stated fails: the table does not have fourteen names. *)
Lemma METHODS_not_fourteen : size METHODS ≠ 14.
Proof. rewrite METHODS_size. lia. Qed.

(** ** The claims at concrete inputs *)

(** C1 as stated fails on the order of the keys: the texts [B: 1], [A: 2]
    and [A: 2], [B: 1] both meet the conditions of the claim, receive their
    keys in different orders and are parsed to the same mapping, so that no
    reading of a mapping gives back the order in which its keys came. *)
Lemma key_order_is_not_kept :
  let data1 := "B: 1" +:+ nl +:+ "A: 2" in
  let data2 := "A: 2" +:+ nl +:+ "B: 1" in
  let meets := λ data,
    (well_formed (split LF data) ∧ ("ERR" ∉ keys (split LF data))
     ∧ NoDup (keys (split LF data))) in
  meets data1 ∧ meets data2
  ∧ keys (split LF data1) = ["B"; "A"]
  ∧ keys (split LF data2) = ["A"; "B"]
  ∧ ClickatellResponse data1 = ClickatellResponse data2
  ∧ ¬ ∃ order : gmap string value → list string,
        ∀ data d, meets data → ClickatellResponse data = Ok d →
                  order d = keys (split LF data).
Proof.
  intros data1 data2 meets.
  assert (meets data1) as H1 by (repeat split; compute_done).
  assert (meets data2) as H2 by (repeat split; compute_done).
  assert (ClickatellResponse data1 = ClickatellResponse data2) as Heq
    by (by vm_compute).
  split; [done|]. split; [done|].
  split; [by vm_compute|]. split; [by vm_compute|]. split; [done|].
  intros [order Horder].
  destruct (ClickatellResponse data1) as [d|e] eqn:Hd; [|by vm_compute in Hd].
  pose proof (Horder data1 d H1 Hd) as Ho1.
  pose proof (Horder data2 d H2 (eq_sym Heq)) as Ho2.
  rewrite Ho1 in Ho2. by vm_compute in Ho2.
Qed.

(** C1, as amended, on a balance reply with a trailing blank line. *)
Lemma unique_keys_are_strings_witness :
  let data := "OK: abc123" +:+ nl +:+ " Credit:  12.5 " +:+ nl +:+ nl in
  (well_formed (split LF data) ∧ ("ERR" ∉ keys (split LF data))
   ∧ NoDup (keys (split LF data)))
  ∧ ∃ d, ClickatellResponse data = Ok d
      ∧ d !! "OK" = Some (VStr "abc123")
      ∧ d !! "Credit" = Some (VStr "12.5")
      ∧ size d = 2.
Proof.
  intros data.
  assert (well_formed (split LF data)) as Hwf by compute_done.
  assert ("ERR" ∉ keys (split LF data)) as Herr by compute_done.
  assert (NoDup (keys (split LF data))) as Hnd by compute_done.
  split; [done|].
  destruct (unique_keys_are_strings data Hwf Herr Hnd)
    as (d & Hd & _ & Hlookup & Hsize & _).
  exists d. split; [done|]. split; [|split].
  - apply Hlookup. exists "abc123". split; [done | compute_done].
  - apply Hlookup. exists "12.5". split; [done | compute_done].
  - by rewrite Hsize.
Defined.

(** C2 on a batch reply: [ID] comes twice, [OK] once. *)
Lemma repeated_keys_are_lists_witness :
  let data := "ID: m1" +:+ nl +:+ "OK: 1" +:+ nl +:+ "ID: m2" +:+ nl in
  ("ERR" ∉ keys (split LF data))
  ∧ ∃ d, ClickatellResponse data = Ok d
      ∧ d !! "ID" = Some (VList ["m1"; "m2"])
      ∧ d !! "OK" = Some (VStr "1").
Proof.
  intros data.
  assert ("ERR" ∉ keys (split LF data)) as Herr by compute_done.
  split; [done|].
  destruct (repeated_keys_are_lists data Herr) as [Hok Hvalues].
  destruct Hok as [d Hd]; [compute_done|].
  exists d. split; [done|]. split.
  - apply (Hvalues d Hd "ID"). by vm_compute.
  - by apply (Hvalues d Hd "OK").
Defined.

(** C4 as stated fails when a line that does not match comes before the
    [ERR] line: the loop reads the lines in order and raises at the first
    one that fails, so the outcome of this text with an [ERR] line is the
    [AttributeError] of the failed match, and not a typed error. *)
Lemma unmatched_line_before_ERR :
  let line := "ERR: 120, Invalid login" in
  let data := "<html>" +:+ nl +:+ line in
  split LF data = ["<html>"] ++ line :: []
  ∧ line_pair line = Some ("ERR", "120, Invalid login")
  ∧ ClickatellResponse data = Raise (AttributeError "group")
  ∧ ¬ ∃ code message,
        ClickatellResponse data = Raise (ClickatellError code message).
Proof.
  intros line data.
  assert (ClickatellResponse data = Raise (AttributeError "group")) as Hd
    by (by vm_compute).
  split; [by vm_compute|]. split; [by vm_compute|]. split; [done|].
  intros (code & message & Hcm). by rewrite Hd in Hcm.
Qed.

(** C4, as amended, on a reply with an [ERR] line between two [ID] lines. *)
Lemma ERR_line_ends_parsing_witness :
  let line := "ERR: 120, Invalid login" in
  let data := "ID: m1" +:+ nl +:+ line +:+ nl +:+ "ID: m2" in
  (split LF data = ["ID: m1"] ++ line :: ["ID: m2"]
   ∧ line_pair line = Some ("ERR", "120, Invalid login"))
  ∧ ClickatellResponse data
    = Raise (ClickatellError (Some "120") "Invalid login")
  ∧ ClickatellResponse data = ClickatellResponse ("ID: m1" +:+ nl +:+ line).
Proof.
  intros line data.
  assert (split LF data = ["ID: m1"] ++ line :: ["ID: m2"]) as Hs
    by (by vm_compute).
  assert (line_pair line = Some ("ERR", "120, Invalid login")) as Hp
    by (by vm_compute).
  split; [exact (conj Hs Hp)|].
  destruct (ERR_line_ends_parsing data _ _ _ _ Hs Hp) as (_ & Hcut & Htyped).
  split; [|exact Hcut].
  assert (parse_lines ["ID: m1"] ∅ = Ok {[ "ID" := VStr "m1" ]}) as Hacc
    by (by vm_compute).
  destruct (Htyped _ Hacc) as [_ Hcode].
  exact (Hcode "120" " Invalid login" eq_refl eq_refl eq_refl).
Defined.

(** C9 on a reply whose second line is not of the form key, colon, value. *)
Lemma unmatched_line_raises_witness :
  let line := "<html>502 Bad Gateway</html>" in
  let data := "ID: m1" +:+ nl +:+ line in
  (split LF data = ["ID: m1"] ++ line :: [] ∧ ¬ blank line
   ∧ line_pair line = None)
  ∧ ClickatellResponse data = Raise (AttributeError "group").
Proof.
  intros line data.
  assert (split LF data = ["ID: m1"] ++ line :: []) as Hs by done.
  assert (¬ blank line) as Hb by done.
  assert (line_pair line = None) as Hp by done.
  split; [done|].
  destruct (unmatched_line_raises data _ _ _ Hs Hb Hp) as [_ Hraise].
  eapply Hraise. by vm_compute.
Defined.

(** C5 on a gateway that answers [OK: abc123] to [auth]: the token is
    stored and then sent by [sendmsg]. *)
Lemma construction_authenticates_once_witness :
  let w := World [] [Body ("OK: abc123" +:+ nl); Body "ID: m1"] false in
  let c := {| _session_id := Some (VStr "abc123") |} in
  let w' :=
    World [Connect; Request "GET" "/http/auth?user=u&api_id=a&password=p+w";
           Close] [Body "ID: m1"] false in
  Clickatell_new (H := urllib) "u" "p w" "a" w = (Ok c, w')
  ∧ ∃ r w2,
      invoke (H := urllib) c "sendmsg" {[ "to" := "1"; "text" := "hi" ]} w'
      = Some (r, w2)
      ∧ requests (events w2) =
          [ "/http/auth?user=u&api_id=a&password=p+w";
            "/http/sendmsg?session_id=abc123&to=1&text=hi" ].
Proof.
  intros w c w'.
  assert (Clickatell_new (H := urllib) "u" "p w" "a" w = (Ok c, w')) as Hnew
    by (by vm_compute).
  split; [done|].
  destruct (construction_authenticates_once (H := urllib) _ _ _ _ _ _ Hnew)
    as (data & auth & tok & Hin & _ & _ & Hauth & Htok & Hc & Hcalls).
  injection Hin as <-. injection Hc as <-.
  destruct (Hcalls "sendmsg" "http/sendmsg"
              {[ "to" := "1"; "text" := "hi" ]} w') as (r & w2 & Hr & Hreq);
    [by vm_compute|].
  exists r, w2. split; [done|]. rewrite Hreq. by vm_compute.
Defined.

(** C10 on a [sendmsg] call to which the caller gives its own session_id. *)
Lemma stored_token_wins_witness :
  let c := {| _session_id := Some (VStr "abc123") |} in
  let w := World [] [Body "ID: m1"] false in
  let kwargs : gmap string string := {[ "to" := "1"; "text" := "hi" ]} in
  (_session_id c = Some (VStr "abc123")
   ∧ METHODS !! "sendmsg" = Some "http/sendmsg")
  ∧ ∃ r w',
      invoke (H := urllib) c "sendmsg" (<["session_id" := "mine"]> kwargs) w
      = Some (r, w')
      ∧ requests (events w')
        = ["/http/sendmsg?session_id=abc123&to=1&text=hi"].
Proof.
  intros c w kwargs.
  assert (METHODS !! "sendmsg" = Some "http/sendmsg") as Hm by (by vm_compute).
  split; [done|].
  destruct (stored_token_wins (H := urllib) c (VStr "abc123") "sendmsg"
              "http/sendmsg" kwargs w "mine" eq_refl Hm)
    as (_ & (r & w' & Hr & Hreq) & _).
  exists r, w'. split; [done|]. rewrite Hreq. by vm_compute.
Defined.

(** C7 as stated fails on the names the object has as attributes:
    [__init__] is not in the endpoint table, and calling it on a client with
    the three credentials does not fail and sends a request. *)
Lemma init_is_called_by_name :
  let c := {| _session_id := Some (VStr "abc123") |} in
  let w := World [] [Body "OK: xyz789"] false in
  let kwargs : gmap string string :=
    {[ "user" := "u"; "password" := "p"; "api_id" := "a" ]} in
  METHODS !! "__init__" = None
  ∧ invoke (H := urllib) c "__init__" kwargs w
    = Some (Ok (NoneValue {| _session_id := Some (VStr "xyz789") |}),
            World [Connect;
                   Request "GET"
                     "/http/auth?session_id=abc123&user=u&api_id=a&password=p";
                   Close] [] false).
Proof. split; by vm_compute. Qed.

(** C7, as amended, on the name [sendsms], which nothing defines. *)
Lemma unknown_name_raises_before_request_witness :
  let c := {| _session_id := Some (VStr "abc123") |} in
  let w := World [] [Body "ID: m1"] false in
  (METHODS !! "sendsms" = None ∧ hasattr c "sendsms" = false)
  ∧ invoke (H := urllib) c "sendsms" {[ "to" := "1" ]} w
    = Some (Raise (AttributeError "sendsms"), w).
Proof.
  intros c w.
  assert (METHODS !! "sendsms" = None) as Hm by (by vm_compute).
  assert (hasattr c "sendsms" = false) as Ha by (by vm_compute).
  split; [done|].
  by apply (unknown_name_raises_before_request (H := urllib) c "sendsms").
Defined.

(** * Further properties *)

(** ** More on strings *)

Lemma isalpha_not_space c : isalpha c = true → isspace c = false.
Proof. by destruct c as [[] [] [] [] [] [] [] []]. Qed.

Lemma isalpha_not_LF c : isalpha c = true → Ascii.eqb c LF = false.
Proof. by destruct c as [[] [] [] [] [] [] [] []]. Qed.

Lemma letters_no_LF k : every isalpha k = true → contains LF k = false.
Proof.
  induction k as [|c k IH]; simpl; [done|].
  intros [Hc Hk]%andb_true_iff. by rewrite (isalpha_not_LF c), IH.
Qed.

Lemma rstrip_String c s :
  rstrip (String c s) =
    match rstrip s with
    | EmptyString => if isspace c then EmptyString else String c EmptyString
    | r => String c r
    end.
Proof. done. Qed.

Lemma rstrip_append_nonblank a b :
  rstrip b ≠ EmptyString → rstrip (a +:+ b) = a +:+ rstrip b.
Proof.
  intros Hb. induction a as [|c a IH]; [done|].
  rewrite append_String, rstrip_String, IH.
  destruct (a +:+ rstrip b) as [|x r] eqn:Hab; [|by rewrite append_String, Hab].
  destruct a; [by rewrite append_empty in Hab | done].
Qed.

Lemma rstrip_nonspace c s : isspace c = false → rstrip (String c s) = String c (rstrip s).
Proof. intros Hc. rewrite rstrip_String, Hc. by destruct (rstrip s). Qed.

Lemma lstrip_append_nonspace a c b :
  isspace c = false → lstrip (a +:+ String c b) = lstrip a +:+ String c b.
Proof.
  intros Hc. induction a as [|x a IH].
  - rewrite append_empty. simpl. by rewrite Hc.
  - rewrite append_String. simpl. by destruct (isspace x).
Qed.

Lemma strip_idemp s : strip (strip s) = strip s.
Proof. unfold strip. by rewrite rstrip_lstrip, rstrip_idemp, lstrip_idemp. Qed.

Lemma strip_lstrip s : strip (lstrip s) = strip s.
Proof. unfold strip. by rewrite rstrip_lstrip, lstrip_idemp. Qed.

Lemma strip_rstrip s : strip (rstrip s) = strip s.
Proof. unfold strip. by rewrite rstrip_idemp. Qed.

Lemma split_append_pieces sep a b :
  split sep (a +:+ String sep b) = split sep a ++ split sep b.
Proof.
  induction a as [|c a IH].
  - rewrite append_empty. simpl. by rewrite Ascii.eqb_refl.
  - rewrite append_String. simpl. rewrite IH.
    destruct (Ascii.eqb c sep); [done|].
    pose proof (split_nonempty sep a). by destruct (split sep a).
Qed.

(** A raw line made of a key of letters, a colon and a rest is read as the
    key and the trimmed rest. *)
Lemma line_pair_key_rest key rest :
  key ≠ EmptyString → every isalpha key = true → contains LF rest = false →
  line_pair (key +:+ ":" +:+ rest) = Some (key, strip rest).
Proof.
  intros Hne Hkey Hrest. unfold line_pair.
  assert (strip (key +:+ ":" +:+ rest) = key +:+ ":" +:+ rstrip rest) as ->.
  { unfold strip. change (":" +:+ rest) with (String ":" rest).
    rewrite rstrip_append_nonblank, rstrip_nonspace by
      (try done; rewrite rstrip_nonspace by done; done).
    destruct key as [|c key]; [done|]. simpl in Hkey.
    apply andb_true_iff in Hkey as [Hc _]. rewrite append_String. simpl.
    by rewrite (isalpha_not_space c). }
  apply KEY_VALUE_RE_match_Some.
  - rewrite !contains_append, letters_no_LF, rstrip_no by done. done.
  - split; [done|]. split; [done|]. split; [apply lstrip_idemp|].
    destruct (lstrip_split (rstrip rest)) as (ws & Hws & Heq).
    exists ws. split; [done|]. unfold strip. by rewrite <- Heq.
Qed.

(** ** More on the parser *)

Lemma key_received lines key :
  key ∈ keys lines ↔ occurrences key lines ≠ [].
Proof.
  unfold keys, occurrences. induction (pairs lines) as [|[k v] l IH].
  - split; [by intros ?%elem_of_nil | done].
  - rewrite fmap_cons, elem_of_cons, filter_cons. simpl. case_decide.
    + subst. split; [done | by left].
    + rewrite IH. split; [by intros [?|?] | by right].
Qed.

Lemma occurrence_line lines key v :
  v ∈ occurrences key lines →
  ∃ line, line ∈ lines ∧ line_pair line = Some (key, v).
Proof.
  unfold occurrences, pairs.
  intros [[k v'] [-> [Hk Hin]%list_elem_of_filter]]%list_elem_of_fmap.
  simpl in Hk. subst k. apply list_elem_of_omap in Hin as (line & ? & ?).
  by exists line.
Qed.

Lemma collected_None vs : collected vs = None ↔ vs = [].
Proof. by destruct vs as [|? [|? ?]]. Qed.

Lemma parse_lines_blank lines self :
  Forall blank lines → parse_lines lines self = Ok self.
Proof.
  induction 1 as [|line lines Hb _ IH]; simpl; [done|].
  by rewrite parse_line_blank.
Qed.

Lemma parse_line_strip line self : parse_line (strip line) self = parse_line line self.
Proof. unfold parse_line. by rewrite strip_idemp. Qed.

Lemma occurrence_of_line lines line key v :
  line ∈ lines → line_pair line = Some (key, v) → v ∈ occurrences key lines.
Proof.
  intros Hline Hp. unfold occurrences, pairs.
  apply list_elem_of_fmap. exists (key, v). split; [done|].
  apply list_elem_of_filter. split; [done|].
  apply list_elem_of_omap. by exists line.
Qed.

Lemma value_trimmed data line key v :
  line ∈ split LF data → line_pair line = Some (key, v) →
  strip v = v ∧ contains LF v = false.
Proof.
  intros Hline Hp. pose proof (lines_no_LF _ _ Hline) as Hno.
  destruct (line_pair_trimmed _ _ _ Hno Hp) as (rest & Hs & ->).
  split; [apply strip_idemp|]. apply strip_no.
  apply (strip_no LF) in Hno. rewrite Hs, !contains_append in Hno.
  by apply orb_false_iff in Hno as [_ [_ ?]%orb_false_iff].
Qed.

Lemma key_of_letters data line key v :
  line ∈ split LF data → line_pair line = Some (key, v) →
  key ≠ EmptyString ∧ every isalpha key = true.
Proof.
  intros Hline Hp. pose proof (lines_no_LF _ _ Hline) as Hno.
  apply KEY_VALUE_RE_match_Some in Hp as (? & ? & _); [done|].
  by apply strip_no.
Qed.

Lemma size_list_to_set_le (l : list string) :
  size (list_to_set l : gset string) ≤ length l.
Proof.
  induction l as [|a l IH]; [done|]. simpl.
  destruct (decide (a ∈ (list_to_set l : gset string))).
  - assert ({[a]} ∪ list_to_set l = (list_to_set l : gset string)) as ->
      by (apply subseteq_union_1_L, singleton_subseteq_l; done).
    lia.
  - rewrite size_union, size_singleton by set_solver. lia.
Qed.

Lemma pairs_length_le lines :
  length (pairs lines) ≤ length (filter (λ line, ¬ blank line) lines).
Proof.
  induction lines as [|line lines IH]; [done|].
  rewrite pairs_cons, filter_cons.
  destruct (decide (blank line)) as [Hb|Hb].
  - rewrite blank_no_pair by done. by case_decide.
  - case_decide; [|done]. destruct (line_pair line); simpl; lia.
Qed.

Lemma parse_lines_strip lines self :
  parse_lines (strip <$> lines) self = parse_lines lines self.
Proof.
  revert self. induction lines as [|line lines IH]; intros self; simpl; [done|].
  rewrite parse_line_strip. destruct (parse_line line self); simpl; [apply IH|done].
Qed.

Lemma parse_lines_skip_blank lines self :
  parse_lines (filter (λ line, ¬ blank line) lines) self = parse_lines lines self.
Proof.
  revert self. induction lines as [|line lines IH]; intros self; [done|].
  rewrite filter_cons. case_decide as Hb; simpl.
  - destruct (parse_line line self); simpl; [apply IH|done].
  - rewrite parse_line_blank by done. apply IH.
Qed.

(** Where the loop raises: at the first line that has the key [ERR] or that
    does not match, the lines before it having been stored. *)
Lemma parse_lines_Raise lines self e :
  parse_lines lines self = Raise e →
  ∃ before line after acc,
    lines = before ++ line :: after
    ∧ parse_lines before self = Ok acc
    ∧ ((∃ v, line_pair line = Some ("ERR", v) ∧ e = raise_error v)
       ∨ (¬ blank line ∧ line_pair line = None ∧ e = AttributeError "group")).
Proof.
  revert self. induction lines as [|line lines IH]; intros self; simpl; [done|].
  destruct (parse_line line self) as [self'|e'] eqn:Hline; simpl.
  - intros (before & bad & after & acc & -> & Hacc & Hbad)%IH.
    exists (line :: before), bad, after, acc. simpl. by rewrite Hline.
  - intros [= ->]. exists [], line, lines, self. split; [done|]. split; [done|].
    destruct (decide (blank line)) as [Hb|Hb];
      [by rewrite parse_line_blank in Hline|].
    destruct (line_pair line) as [[k v]|] eqn:Hp.
    + rewrite (parse_line_pair _ _ _ _ Hp) in Hline.
      destruct (String.eqb_spec k "ERR") as [->|_]; [|done].
      left. exists v. split; congruence.
    + rewrite parse_line_no_match in Hline by done. right. by injection Hline.
Qed.

(** X1. On a string without line feed the pattern gives a key and a value
    exactly when the string is a non-empty run of letters, a colon, a run of
    whitespace and the value, the value not starting with whitespace; and it
    fails exactly when the string cannot be cut into letters, colon,
    whitespace and a rest. *)
Theorem KEY_VALUE_RE_reads_key_colon_value s :
  contains LF s = false →
  (∀ k v, KEY_VALUE_RE_match s = Some (k, v) ↔
     k ≠ EmptyString ∧ every isalpha k = true ∧ lstrip v = v ∧
     ∃ ws, every isspace ws = true ∧ s = k +:+ ":" +:+ ws +:+ v)
  ∧ (KEY_VALUE_RE_match s = None ↔
       ¬ ∃ k ws v, k ≠ EmptyString ∧ every isalpha k = true
                   ∧ every isspace ws = true ∧ s = k +:+ ":" +:+ ws +:+ v).
Proof.
  intros Hs. split.
  - intros k v. by apply KEY_VALUE_RE_match_Some.
  - by apply KEY_VALUE_RE_match_None.
Qed.

(** X2. A response of one line, a key of letters other than [ERR], a colon
    and any rest without line feed, is parsed to the mapping of that key
    alone to the rest trimmed on both sides. *)
Theorem one_line_response key rest :
  key ≠ EmptyString → every isalpha key = true → key ≠ "ERR" →
  contains LF rest = false →
  ClickatellResponse (key +:+ ":" +:+ rest) = Ok {[ key := VStr (strip rest) ]}.
Proof.
  intros Hne Hkey Herr Hrest.
  assert (contains LF (key +:+ ":" +:+ rest) = false) as Hline
    by (by rewrite !contains_append, letters_no_LF, Hrest).
  unfold ClickatellResponse, _parse_response. rewrite (split_piece _ _ Hline).
  simpl. rewrite (parse_line_pair _ key (strip rest)) by (by apply line_pair_key_rest).
  destruct (String.eqb_spec key "ERR"); [done|]. simpl.
  unfold store. by rewrite lookup_empty, insert_empty.
Qed.

(** X3. A response of one [ERR] line whose value has exactly one comma
    raises the typed error with the code that precedes the comma and the
    message that follows it, both trimmed. *)
Theorem ERR_line_with_code code message :
  contains "," code = false → contains "," message = false →
  contains LF code = false → contains LF message = false →
  ClickatellResponse ("ERR:" +:+ code +:+ "," +:+ message)
  = Raise (ClickatellError (Some (strip code)) (strip message)).
Proof.
  intros Hc Hm Hcl Hml.
  assert (contains LF (code +:+ "," +:+ message) = false) as Hrest
    by (by rewrite !contains_append, Hcl, Hml).
  assert (contains LF ("ERR" +:+ ":" +:+ code +:+ "," +:+ message) = false)
    as Hline by (by rewrite (contains_append _ "ERR"), (contains_append _ ":"), Hrest).
  unfold ClickatellResponse, _parse_response.
  change ("ERR:" +:+ code +:+ "," +:+ message)
    with ("ERR" +:+ ":" +:+ code +:+ "," +:+ message).
  rewrite (split_piece _ _ Hline). simpl.
  rewrite (parse_line_pair _ "ERR" (strip (code +:+ "," +:+ message)))
    by (by apply line_pair_key_rest).
  simpl. f_equal.
  assert (strip (code +:+ "," +:+ message)
          = lstrip code +:+ "," +:+ rstrip message) as ->.
  { unfold strip. change ("," +:+ message) with (String "," message).
    rewrite rstrip_append_nonblank
      by (rewrite rstrip_nonspace by done; done).
    rewrite rstrip_nonspace by done. by apply lstrip_append_nonspace. }
  rewrite raise_error_one_comma by (by apply lstrip_no || by apply rstrip_no).
  by rewrite strip_lstrip, strip_rstrip.
Qed.

(** X4. A response of one [ERR] line whose value has no comma raises the
    typed error with no code and the trimmed value as its message. *)
Theorem ERR_line_without_code v :
  contains "," v = false → contains LF v = false →
  ClickatellResponse ("ERR:" +:+ v) = Raise (ClickatellError None (strip v)).
Proof.
  intros Hc Hl.
  assert (contains LF ("ERR" +:+ ":" +:+ v) = false) as Hline
    by (by rewrite (contains_append _ "ERR"), (contains_append _ ":"), Hl).
  unfold ClickatellResponse, _parse_response.
  change ("ERR:" +:+ v) with ("ERR" +:+ ":" +:+ v).
  rewrite (split_piece _ _ Hline). simpl.
  rewrite (parse_line_pair _ "ERR" (strip v)) by (by apply line_pair_key_rest).
  simpl. f_equal.
  rewrite raise_error_no_comma by (by apply strip_no). by rewrite strip_idemp.
Qed.

(** X5. Parsing returns a mapping exactly when every line of the text is
    blank or matches the pattern and no line has the key [ERR]. *)
Theorem parsing_succeeds_iff data :
  (∃ d, ClickatellResponse data = Ok d)
  ↔ well_formed (split LF data) ∧ "ERR" ∉ keys (split LF data).
Proof.
  split.
  - intros [d Hd]. by apply (parse_lines_Ok_inv _ ∅ d).
  - intros [Hwf Herr]. by apply parse_lines_Ok.
Qed.

(** X6. The mapping returned is empty exactly when every line of the text
    is blank; the empty text is one such text. *)
Theorem empty_mapping_iff_blank data :
  ClickatellResponse data = Ok ∅ ↔ Forall blank (split LF data).
Proof.
  split.
  - intros Hd. destruct (parse_lines_Ok_inv _ _ _ Hd) as [Hwf _].
    unfold well_formed in Hwf. rewrite Forall_forall in Hwf.
    apply Forall_forall. intros line Hline.
    destruct (Hwf line Hline) as [Hb|[[k v] Hp]]; [done|].
    pose proof (occurrence_of_line _ _ _ _ Hline Hp) as Hocc.
    pose proof (ClickatellResponse_lookup data ∅ k Hd) as Hk.
    rewrite lookup_empty in Hk. symmetry in Hk. apply collected_None in Hk.
    rewrite Hk in Hocc. by apply elem_of_nil in Hocc.
  - intros Hb. by apply parse_lines_blank.
Qed.

(** X7. The keys of the mapping returned are exactly the keys received;
    each is a non-empty run of letters other than [ERR]; and there are no
    more of them than non-blank lines in the text. *)
Theorem keys_are_the_keys_received data d :
  ClickatellResponse data = Ok d →
  dom d = list_to_set (keys (split LF data))
  ∧ (∀ key, key ∈ dom d →
       key ≠ EmptyString ∧ every isalpha key = true ∧ key ≠ "ERR")
  ∧ size d ≤ length (filter (λ line, ¬ blank line) (split LF data)).
Proof.
  intros Hd.
  assert (dom d = list_to_set (keys (split LF data))) as Hdom.
  { apply set_eq. intros key.
    rewrite elem_of_dom, elem_of_list_to_set, key_received.
    rewrite (ClickatellResponse_lookup data d key Hd).
    rewrite <- not_eq_None_Some, collected_None. done. }
  split; [done|]. split.
  - intros key. rewrite Hdom, elem_of_list_to_set. intros Hkey.
    destruct (parse_lines_Ok_inv _ _ _ Hd) as [_ Herr].
    assert (key ≠ "ERR") by (by intros ->).
    apply key_received in Hkey.
    destruct (occurrences key (split LF data)) as [|v vs] eqn:Hocc; [done|].
    destruct (occurrence_line (split LF data) key v) as (line & Hline & Hp);
      [rewrite Hocc; by left|].
    destruct (key_of_letters data line key v Hline Hp). done.
  - rewrite <- size_dom, Hdom.
    etrans; [apply size_list_to_set_le|].
    unfold keys. rewrite length_fmap. apply pairs_length_le.
Qed.

(** X8. In the mapping returned, a list holds at least two values, and
    every value, alone or in a list, is trimmed on both sides and holds no
    line feed. *)
Theorem values_are_trimmed data d key :
  ClickatellResponse data = Ok d →
  let clean := λ v, strip v = v ∧ contains LF v = false in
  (∀ l, d !! key = Some (VList l) → 2 ≤ length l ∧ Forall clean l)
  ∧ (∀ v, d !! key = Some (VStr v) → clean v).
Proof.
  intros Hd clean.
  assert (Forall clean (occurrences key (split LF data))) as Hclean.
  { apply Forall_forall. intros v (line & Hline & Hp)%occurrence_line.
    by apply (value_trimmed data line key). }
  rewrite (ClickatellResponse_lookup data d key Hd).
  destruct (occurrences key (split LF data)) as [|v1 [|v2 vs]]; simpl.
  - by split.
  - split; [done|]. intros v [= <-]. by inversion Hclean.
  - split; [|done]. intros l [= <-]. split; [simpl; lia | done].
Qed.

(** X9. The mapping returned depends only on the values received for each
    key, in their order: two texts that parse and agree on them, however
    their lines are interleaved, give the same mapping. *)
Theorem result_depends_on_values_per_key data1 data2 d1 d2 :
  ClickatellResponse data1 = Ok d1 →
  ClickatellResponse data2 = Ok d2 →
  (∀ key, occurrences key (split LF data1) = occurrences key (split LF data2)) →
  d1 = d2.
Proof.
  intros H1 H2 Hocc. apply map_eq. intros key.
  by rewrite (ClickatellResponse_lookup _ _ key H1),
    (ClickatellResponse_lookup _ _ key H2), Hocc.
Qed.

(** X10. Parsing two texts joined by a line feed into a dict is parsing
    the first into it and then, unless that raised, the second into what
    the first left. *)
Theorem parsing_joined_texts data1 data2 self :
  _parse_response (data1 +:+ nl +:+ data2) self =
    self' ← _parse_response data1 self; _parse_response data2 self'.
Proof.
  unfold _parse_response.
  change (data1 +:+ nl +:+ data2) with (data1 +:+ String LF data2).
  by rewrite split_append_pieces, parse_lines_app.
Qed.

(** X11. Whitespace around the lines and blank lines do not count: the
    text whose lines are trimmed, and the text whose blank lines are
    removed, have the same outcome as the text itself. *)
Theorem margins_and_blank_lines_are_ignored data :
  ClickatellResponse (join LF (strip <$> split LF data)) = ClickatellResponse data
  ∧ ClickatellResponse (join LF (filter (λ line, ¬ blank line) (split LF data)))
    = ClickatellResponse data.
Proof.
  unfold ClickatellResponse, _parse_response. split.
  - rewrite split_join.
    + apply parse_lines_strip.
    + pose proof (split_nonempty LF data). by destruct (split LF data).
    + apply Forall_fmap. eapply Forall_impl; [apply split_no_sep|].
      intros line Hline. by apply strip_no.
  - rewrite <- (parse_lines_skip_blank (split LF data)).
    destruct (filter _ (split LF data)) as [|line lines] eqn:Hf; [done|].
    rewrite split_join; [done..|].
    rewrite <- Hf. apply Forall_forall.
    intros l [_ Hl]%list_elem_of_filter. by apply (lines_no_LF data).
Qed.

(** X12. When parsing raises, it is at the first line that has the key
    [ERR] or does not match, the lines before it being blank or stored; the
    exception is that of the [ERR] branch or the [AttributeError] of the
    failed match, and nothing else. *)
Theorem first_bad_line_decides data e :
  ClickatellResponse data = Raise e →
  ∃ before line after acc,
    split LF data = before ++ line :: after
    ∧ parse_lines before ∅ = Ok acc
    ∧ ((∃ v, line_pair line = Some ("ERR", v) ∧ e = raise_error v
             ∧ (e = ValueError ∨ ∃ code message, e = ClickatellError code message))
       ∨ (¬ blank line ∧ line_pair line = None ∧ e = AttributeError "group")).
Proof.
  intros (before & line & after & acc & Hs & Hacc & Hbad)%parse_lines_Raise.
  exists before, line, after, acc. split; [done|]. split; [done|].
  destruct Hbad as [(v & Hp & ->)|?]; [left | by right].
  exists v. split; [done|]. split; [done|].
  unfold raise_error. destruct (contains "," v); [|right; by eexists _, _].
  destruct (split "," v) as [|? [|? [|? ?]]]; try by left.
  right. by eexists _, _.
Qed.

(** ** More on the client *)

Section MoreClientProperties.
Context `{Urllib}.

Lemma _handler_exchange self method args w :
  ∃ added,
    events (_handler self method args w).2 = events w ++ added
    ∧ exchange added
    ∧ inbox (_handler self method args w).2 = tail (inbox w).
Proof.
  rewrite _handler_run. unfold exchange.
  destruct (inbox w) as [|[data| |] rest]; simpl;
    try destruct (ClickatellResponse data); simpl;
    eexists; (split; [done|]); (split; [|done]); eauto 6.
Qed.

Lemma credentials_exactly user password api_id :
  let kwargs : gmap string string :=
    {[ "user" := user; "password" := password; "api_id" := api_id ]} in
  kwargs !! "user" = Some user ∧ kwargs !! "password" = Some password
  ∧ kwargs !! "api_id" = Some api_id
  ∧ exactly ["user"; "password"; "api_id"] kwargs = true.
Proof.
  intros kwargs. unfold kwargs, exactly.
  repeat split; by simplify_map_eq.
Qed.

Lemma invoke_init self user password api_id w :
  invoke self "__init__"
    {[ "user" := user; "password" := password; "api_id" := api_id ]} w
  = Some match __init__ self user password api_id w with
         | (Ok self', w') => (Ok (NoneValue self'), w')
         | (Raise e, w') => (Raise e, w')
         end.
Proof.
  unfold invoke.
  assert (__getattribute__ self "__init__" = Ok BoundInit) as ->.
  { unfold __getattribute__.
    by assert (METHODS !! "__init__" = None) as -> by (by vm_compute). }
  destruct (credentials_exactly user password api_id) as (Hu & Hp & Ha & Hex).
  simpl. rewrite Hu, Hp, Ha, Hex. simpl. unfold mbind, M_bind.
  by destruct (__init__ self user password api_id w) as [[self'|e] w'].
Qed.

(** X13. A call of an operation of the table that the gateway answers with
    a text that parses returns the parsed mapping, after exactly a connect,
    a GET of the operation's path with the encoded parameters and a close;
    the reply is consumed and the connection is closed. *)
Theorem operation_returns_parsed_reply c name method kwargs w data rest d :
  METHODS !! name = Some method →
  inbox w = Body data :: rest →
  ClickatellResponse data = Ok d →
  invoke c name kwargs w =
    Some (Ok (Response d),
          World (events w ++
                   [Connect;
                    Request "GET" ("/" +:+ method +:+ "?"
                                   +:+ urlencode (parameters c (VStr <$> kwargs)));
                    Close])
                rest false).
Proof.
  intros Hm Hw Hd. rewrite (invoke_method _ _ _ _ _ Hm), _handler_run.
  simpl. by rewrite Hw, Hd.
Qed.

(** X14. When the gateway refuses the connection, the call raises the
    transport error and sends no request; only the [connect] is logged, and
    the connection is as open or closed as it was. *)
Theorem refused_connection_sends_nothing c name method kwargs w rest :
  METHODS !! name = Some method →
  inbox w = Refused :: rest →
  invoke c name kwargs w =
    Some (Raise TransportError, World (events w ++ [Connect]) rest (is_open w)).
Proof.
  intros Hm Hw. rewrite (invoke_method _ _ _ _ _ Hm), _handler_run.
  simpl. by rewrite Hw.
Qed.

(** X15. When no body can be read, because the transport breaks or the
    gateway is silent, the call raises the transport error after the
    request was sent, and the connection is left open. *)
Theorem broken_transport_leaves_open c name method kwargs w :
  METHODS !! name = Some method →
  (∃ rest, inbox w = Broken :: rest) ∨ inbox w = [] →
  invoke c name kwargs w =
    Some (Raise TransportError,
          World (events w ++
                   [Connect;
                    Request "GET" ("/" +:+ method +:+ "?"
                                   +:+ urlencode (parameters c (VStr <$> kwargs)))])
                (tail (inbox w)) true).
Proof.
  intros Hm Hw. rewrite (invoke_method _ _ _ _ _ Hm), _handler_run.
  simpl. by destruct Hw as [[rest ->] | ->].
Qed.

(** X16. A call of an operation of the table closes the connection exactly
    when it returns a response: whenever it raises, the log of the call has
    no [close], and unless the connection was refused it stays open. *)
Theorem closed_iff_response c name method kwargs w r w' :
  METHODS !! name = Some method →
  invoke c name kwargs w = Some (r, w') →
  ∃ added,
    events w' = events w ++ added
    ∧ ((∃ d, r = Ok (Response d)) ↔ Close ∈ added)
    ∧ ((∃ d, r = Ok (Response d)) → is_open w' = false)
    ∧ ((∃ e, r = Raise e) → refused w = false → is_open w' = true).
Proof.
  intros Hm. rewrite (invoke_method _ _ _ _ _ Hm), _handler_run. unfold refused.
  destruct (inbox w) as [|[data| |] rest]; simpl;
    try destruct (ClickatellResponse data) as [d|e]; simpl;
    intros [= <- <-]; simpl; eexists; (split; [done|]).
  - split; [|by split; [intros [? [=]] | ]].
    split; [by intros [? [=]] | by intros [?|[?|[]%elem_of_nil]%elem_of_cons]%elem_of_cons].
  - split; [|by split; [ | intros [? [=]]]].
    split; [intros _; rewrite !elem_of_cons; auto | by eexists].
  - split; [|by split; [intros [? [=]] | ]].
    split; [by intros [? [=]] | by intros [?|[?|[]%elem_of_nil]%elem_of_cons]%elem_of_cons].
  - split; [|by split; [intros [? [=]] | ]].
    split; [by intros [? [=]] | by intros [?|[]%elem_of_nil]%elem_of_cons].
  - split; [|by split; [intros [? [=]] | ]].
    split; [by intros [? [=]] | by intros [?|[?|[]%elem_of_nil]%elem_of_cons]%elem_of_cons].
Qed.

Lemma exchange_nothing w :
  ∃ added, events w = events w ++ added ∧ exchange added
    ∧ (inbox w = inbox w ∨ inbox w = tail (inbox w)).
Proof. exists []. rewrite app_nil_r. unfold exchange. auto. Qed.

Lemma exchange_handler self method args w b :
  let w' := (_handler self method args (World (events w) (inbox w) b)).2 in
  ∃ added, events w' = events w ++ added ∧ exchange added
    ∧ (inbox w' = inbox w ∨ inbox w' = tail (inbox w)).
Proof.
  destruct (_handler_exchange self method args (World (events w) (inbox w) b))
    as (added & ? & ? & ?).
  exists added. auto.
Qed.

(** X17. Whatever name is called and with whatever arguments, one call
    adds to the log at most a connect, one request and one close, in that
    order, and consumes at most one reply of the gateway. *)
Theorem one_call_one_exchange c name kwargs w r w' :
  invoke c name kwargs w = Some (r, w') →
  ∃ added,
    events w' = events w ++ added
    ∧ exchange added
    ∧ (inbox w' = inbox w ∨ inbox w' = tail (inbox w)).
Proof.
  unfold invoke.
  destruct (__getattribute__ c name) as [a|e];
    [|intros [= <- <-]; apply exchange_nothing].
  destruct a; simpl; try done; unfold raise, mbind, M_bind, mret, M_ret, lift;
    try (intros [= <- <-]; apply exchange_nothing).
  - pose proof (exchange_handler c method (VStr <$> kwargs) w (is_open w)) as Hx.
    destruct w as [ev inb op]. simpl in Hx.
    destruct (_handler c method (VStr <$> kwargs) (World ev inb op)) as [[d|e] w1];
      by intros [= <- <-].
  - destruct (kwargs !! "user") as [user|], (kwargs !! "password") as [password|],
      (kwargs !! "api_id") as [api_id|];
      try (intros [= <- <-]; apply exchange_nothing).
    destruct (exactly _ _); [|intros [= <- <-]; apply exchange_nothing].
    rewrite __init___run.
    pose proof (exchange_handler c "http/auth"
                  (credentials user password api_id) w false) as Hx.
    simpl in Hx.
    destruct (_handler c "http/auth" _ _) as [[auth|e] w1]; simpl in *.
    + by destruct (auth !! "OK"); intros [= <- <-].
    + by intros [= <- <-].
  - destruct (kwargs !! "method"); [destruct (exactly _ _)|];
      intros [= <- <-]; apply exchange_nothing.
  - destruct (kwargs !! "name") as [n|]; [destruct (exactly _ _)|];
      try (intros [= <- <-]; apply exchange_nothing).
    destruct (__getattribute__ c n); intros [= <- <-]; apply exchange_nothing.
Qed.

Lemma Clickatell_new_run user password api_id w :
  Clickatell_new user password api_id w =
    let url := "/http/auth?" +:+ urlencode (credentials user password api_id) in
    match inbox w with
    | Refused :: rest =>
        (Raise TransportError, World (events w ++ [Connect]) rest false)
    | Body data :: rest =>
        match ClickatellResponse data with
        | Ok auth =>
            let w' :=
              World (events w ++ [Connect; Request "GET" url; Close]) rest false in
            match auth !! "OK" with
            | Some tok => (Ok {| _session_id := Some tok |}, w')
            | None => (Raise (KeyError "OK"), w')
            end
        | Raise e =>
            (Raise e, World (events w ++ [Connect; Request "GET" url]) rest true)
        end
    | Broken :: rest =>
        (Raise TransportError,
         World (events w ++ [Connect; Request "GET" url]) rest true)
    | [] =>
        (Raise TransportError,
         World (events w ++ [Connect; Request "GET" url]) [] true)
    end.
Proof.
  unfold Clickatell_new. rewrite __init___run, _handler_run. simpl.
  destruct (inbox w) as [|[data| |] rest]; try done.
  by destruct (ClickatellResponse data).
Qed.

(** X18. Construction gives a client exactly when the first reply of the
    gateway is a body of which every line is blank or matches, with no
    [ERR] line and with an [OK] line. *)
Theorem construction_succeeds_iff user password api_id w :
  (∃ c w', Clickatell_new user password api_id w = (Ok c, w'))
  ↔ ∃ data rest,
      inbox w = Body data :: rest
      ∧ well_formed (split LF data)
      ∧ ("ERR" ∉ keys (split LF data))
      ∧ ("OK" ∈ keys (split LF data)).
Proof.
  rewrite Clickatell_new_run. simpl. split.
  - intros (c & w' & Hnew).
    destruct (inbox w) as [|[data| |] rest]; try done.
    destruct (ClickatellResponse data) as [auth|e] eqn:Hauth; [|done].
    destruct (auth !! "OK") as [tok|] eqn:Htok; [|done].
    exists data, rest. split; [done|].
    destruct (parse_lines_Ok_inv _ _ _ Hauth) as [Hwf Herr].
    split; [done|]. split; [done|].
    rewrite (ClickatellResponse_lookup data auth "OK" Hauth) in Htok.
    apply key_received. intros Hocc. by rewrite Hocc in Htok.
  - intros (data & rest & -> & Hwf & Herr & Hok).
    destruct (parse_lines_Ok _ ∅ Hwf Herr) as [auth Hauth].
    fold (_parse_response data ∅) in Hauth. fold (ClickatellResponse data) in Hauth.
    rewrite Hauth.
    rewrite (ClickatellResponse_lookup data auth "OK" Hauth).
    apply key_received in Hok.
    destruct (occurrences "OK" (split LF data)) as [|v1 [|v2 vs]]; [done|..];
      by eexists _, _.
Qed.

(** X19. The token a construction stores is what the reply holds under
    [OK]: the string of the [OK] line, or, when the reply has several [OK]
    lines, the list of their values; and every later call of an operation
    of the table sends its request with that value under session_id. *)
Theorem token_is_what_OK_holds user password api_id w c w' :
  Clickatell_new user password api_id w = (Ok c, w') →
  ∃ data rest tok,
    inbox w = Body data :: rest
    ∧ collected (occurrences "OK" (split LF data)) = Some tok
    ∧ _session_id c = Some tok
    ∧ ∀ name method kwargs w1,
        METHODS !! name = Some method →
        ∃ r w2, invoke c name kwargs w1 = Some (r, w2)
          ∧ requests (events w2) =
              requests (events w1) ++
                if refused w1 then []
                else ["/" +:+ method +:+ "?"
                      +:+ urlencode (<["session_id" := tok]> (VStr <$> kwargs))].
Proof.
  rewrite Clickatell_new_run. simpl.
  destruct (inbox w) as [|[data| |] rest]; try done.
  destruct (ClickatellResponse data) as [auth|e] eqn:Hauth; [|done].
  destruct (auth !! "OK") as [tok|] eqn:Htok; [|done].
  intros [= <- <-]. exists data, rest, tok. split; [done|].
  rewrite (ClickatellResponse_lookup data auth "OK" Hauth) in Htok.
  split; [done|]. split; [done|].
  intros name method kwargs w1 Hm.
  apply (invoke_method_requests {| _session_id := Some tok |} _ _ kwargs w1 Hm).
Qed.

(** X20. When the reply to [auth] parses but has no [OK] line, construction
    raises [KeyError] for the key [OK]: the request was sent, the connection
    is closed, and there is no client. *)
Theorem construction_without_OK user password api_id w data rest :
  inbox w = Body data :: rest →
  well_formed (split LF data) → "ERR" ∉ keys (split LF data) →
  "OK" ∉ keys (split LF data) →
  Clickatell_new user password api_id w =
    (Raise (KeyError "OK"),
     World (events w ++
              [Connect;
               Request "GET"
                 ("/http/auth?" +:+ urlencode (credentials user password api_id));
               Close])
           rest false).
Proof.
  intros Hw Hwf Herr Hok. rewrite Clickatell_new_run, Hw. simpl.
  destruct (parse_lines_Ok _ ∅ Hwf Herr) as [auth Hauth].
  fold (_parse_response data ∅) in Hauth. fold (ClickatellResponse data) in Hauth.
  rewrite Hauth, (ClickatellResponse_lookup data auth "OK" Hauth).
  rewrite key_received in Hok. apply dec_stable in Hok. by rewrite Hok.
Qed.

(** X21. When parsing the reply to [auth] raises, construction raises the
    same exception and gives no client; the request was sent and the
    connection is left open. *)
Theorem construction_propagates_error user password api_id w data rest e :
  inbox w = Body data :: rest →
  ClickatellResponse data = Raise e →
  Clickatell_new user password api_id w =
    (Raise e,
     World (events w ++
              [Connect;
               Request "GET"
                 ("/http/auth?" +:+ urlencode (credentials user password api_id))])
           rest true).
Proof.
  intros Hw He. rewrite Clickatell_new_run, Hw. simpl. by rewrite He.
Qed.

(** X22. [__init__] is reached by its name on a client already
    constructed: called with user, password and api_id, it authenticates
    again, sending the stored token under session_id with the credentials,
    and the instance then holds the token of the new reply. *)
Theorem init_again_sends_old_token c tok user password api_id w data rest d tok' :
  _session_id c = Some tok →
  inbox w = Body data :: rest →
  ClickatellResponse data = Ok d →
  d !! "OK" = Some tok' →
  invoke c "__init__"
    {[ "user" := user; "password" := password; "api_id" := api_id ]} w
  = Some (Ok (NoneValue {| _session_id := Some tok' |}),
          World (events w ++
                   [Connect;
                    Request "GET"
                      ("/http/auth?"
                       +:+ urlencode (<["session_id" := tok]>
                                        (credentials user password api_id)));
                    Close])
                rest false).
Proof.
  intros Htok Hw Hd Hok.
  rewrite invoke_init, __init___run, _handler_run. simpl.
  unfold parameters. by rewrite Htok, Hw, Hd, Hok.
Qed.

(** X23. [_create_handler] is reached by its name too: it gives a handler
    for any path, in the endpoint table or not, without touching the
    connection, and a call of that handler sends its request to that
    path. *)
Theorem handler_for_any_path c method kwargs w :
  invoke c "_create_handler" {[ "method" := method ]} w
  = Some (Ok (Attribute (Handler method)), w)
  ∧ ∃ run, call c (Handler method) kwargs = Some run
      ∧ requests (events (run w).2) =
          requests (events w) ++
            if refused w then []
            else ["/" +:+ method +:+ "?"
                  +:+ urlencode (parameters c (VStr <$> kwargs))].
Proof.
  split.
  - unfold invoke.
    assert (__getattribute__ c "_create_handler" = Ok BoundCreateHandler) as ->.
    { unfold __getattribute__.
      by assert (METHODS !! "_create_handler" = None) as -> by (by vm_compute). }
    simpl. by rewrite lookup_singleton_eq.
  - eexists. split; [done|]. unfold mbind, M_bind.
    pose proof (_handler_requests c method (VStr <$> kwargs) w) as Hr.
    by destruct (_handler c method (VStr <$> kwargs) w) as [[d|e] w'].
Qed.

End MoreClientProperties.

Lemma NoDup_snd_inj {A B} (l : list (A * B)) a b m :
  NoDup l.*2 → (a, m) ∈ l → (b, m) ∈ l → a = b.
Proof.
  induction l as [|[x y] l IH]; [by intros _ ?%elem_of_nil|].
  rewrite fmap_cons, NoDup_cons. simpl. intros [Hy Hl] Ha Hb.
  apply elem_of_cons in Ha as [[= -> ->]|Ha];
    apply elem_of_cons in Hb as [[= ->]|Hb]; try done.
  - destruct Hy. apply list_elem_of_fmap. by exists (b, y).
  - subst y. destruct Hy. apply list_elem_of_fmap. by exists (a, m).
  - by apply IH.
Qed.

(** X24. No two operations of the endpoint table share a path, and no
    name of the table is the name of an attribute that the object has of
    its own or from [object]: the interception hides none of them. *)
Theorem table_is_injective_and_shadows_nothing :
  (∀ name1 name2 method,
     METHODS !! name1 = Some method → METHODS !! name2 = Some method →
     name1 = name2)
  ∧ (∀ c name,
       is_Some (METHODS !! name) →
       object_getattribute c name = Raise (AttributeError name)).
Proof.
  split.
  - intros name1 name2 method H1%elem_of_list_to_map_2 H2%elem_of_list_to_map_2.
    apply (NoDup_snd_inj METHODS_literal _ _ method); [compute_done|done..].
  - intros c name [method Hm%elem_of_list_to_map_2].
    apply list_elem_of_In in Hm. unfold METHODS_literal in Hm. simpl in Hm.
    repeat (destruct Hm as [[= <- <-]|Hm]; [by vm_compute|]). done.
Qed.

(** ** ClickatellError *)

Lemma length_append a b :
  String.length (a +:+ b) = String.length a + String.length b.
Proof. induction a as [|x a IH]; [done|]. rewrite append_String. simpl. by rewrite IH. Qed.

Lemma append_cancel_l s a b : s +:+ a = s +:+ b → a = b.
Proof.
  induction s as [|x s IH]; [done|]. rewrite !append_String. intros [= ?]. auto.
Qed.

Lemma append_cancel_r s a b : a +:+ s = b +:+ s → a = b.
Proof.
  revert b. induction a as [|x a IH]; intros [|y b] Heq; [done|..].
  - apply (f_equal String.length) in Heq.
    rewrite append_empty, append_String in Heq. simpl in Heq.
    rewrite length_append in Heq. lia.
  - apply (f_equal String.length) in Heq.
    rewrite append_empty, append_String in Heq. simpl in Heq.
    rewrite length_append in Heq. lia.
  - rewrite !append_String in Heq. injection Heq as -> Heq. f_equal. by apply IH.
Qed.

(** X25. The string of an error tells its message and its code, except
    that an absent code is written None: two errors with the same code have
    the same string only if they have the same message, and two errors with
    the same message have the same string exactly when their codes are
    written alike, so that no code and the code None look the same. *)
Theorem error_string_tells_message_and_code :
  (∀ code message1 message2,
     ClickatellError__str__ code message1 = ClickatellError__str__ code message2 →
     message1 = message2)
  ∧ (∀ code1 code2 message,
       ClickatellError__str__ code1 message = ClickatellError__str__ code2 message
       ↔ default "None" code1 = default "None" code2)
  ∧ (∀ message,
       ClickatellError__str__ None message
       = ClickatellError__str__ (Some "None") message).
Proof.
  unfold ClickatellError__str__. split; [|split].
  - intros code m1 m2 Heq. apply append_cancel_l in Heq.
    by apply append_cancel_r in Heq.
  - intros code1 code2 message. split.
    + intros Heq. do 3 apply append_cancel_l in Heq.
      by apply append_cancel_r in Heq.
    + by intros ->.
  - done.
Qed.

(** ** The further properties at concrete inputs *)

(** X1 on the line [ID:  m1]. *)
Lemma KEY_VALUE_RE_reads_key_colon_value_witness :
  contains LF "ID:  m1" = false
  ∧ KEY_VALUE_RE_match "ID:  m1" = Some ("ID", "m1").
Proof.
  split; [done|].
  apply (KEY_VALUE_RE_reads_key_colon_value "ID:  m1" eq_refl).
  split; [done|]. split; [done|]. split; [done|]. by exists "  ".
Defined.

(** X2 on a balance line that ends with a carriage return. *)
Lemma one_line_response_witness :
  let rest := "  12.5 " +:+ CR in
  ("Credit" ≠ EmptyString ∧ every isalpha "Credit" = true ∧ "Credit" ≠ "ERR"
   ∧ contains LF rest = false)
  ∧ ClickatellResponse ("Credit" +:+ ":" +:+ rest) = Ok {[ "Credit" := VStr "12.5" ]}.
Proof.
  intros rest. split; [done|].
  by apply (one_line_response "Credit" rest).
Defined.

(** X3 on an [ERR] line with spaces around the code and the message. *)
Lemma ERR_line_with_code_witness :
  (contains "," " 120 " = false ∧ contains "," " Invalid login " = false
   ∧ contains LF " 120 " = false ∧ contains LF " Invalid login " = false)
  ∧ ClickatellResponse ("ERR:" +:+ " 120 " +:+ "," +:+ " Invalid login ")
    = Raise (ClickatellError (Some "120") "Invalid login").
Proof.
  split; [done|].
  by apply (ERR_line_with_code " 120 " " Invalid login ").
Defined.

(** X4 on the [ERR] line of route coverage, which has no code. *)
Lemma ERR_line_without_code_witness :
  (contains "," " API quota exceeded" = false
   ∧ contains LF " API quota exceeded" = false)
  ∧ ClickatellResponse ("ERR:" +:+ " API quota exceeded")
    = Raise (ClickatellError None "API quota exceeded").
Proof.
  split; [done|].
  by apply (ERR_line_without_code " API quota exceeded").
Defined.

(** X7 on a batch reply with a blank line. *)
Lemma keys_are_the_keys_received_witness :
  let data := "ID: m1" +:+ nl +:+ "ID: m2" +:+ nl +:+ nl +:+ "OK: 1" in
  let d : gmap string value := {[ "ID" := VList ["m1"; "m2"]; "OK" := VStr "1" ]} in
  ClickatellResponse data = Ok d
  ∧ dom d = {[ "ID"; "OK" ]} ∧ size d ≤ 3.
Proof.
  intros data d.
  assert (ClickatellResponse data = Ok d) as Hd by (by vm_compute).
  split; [done|].
  destruct (keys_are_the_keys_received data d Hd) as (Hdom & _ & Hsize).
  split; [|exact Hsize]. rewrite Hdom. by vm_compute.
Defined.

(** X8 on the same reply, at the key [ID]. *)
Lemma values_are_trimmed_witness :
  let data := "ID: m1 " +:+ nl +:+ "ID:   m2" +:+ CR +:+ nl +:+ nl +:+ "OK: 1" in
  let d : gmap string value := {[ "ID" := VList ["m1"; "m2"]; "OK" := VStr "1" ]} in
  ClickatellResponse data = Ok d
  ∧ 2 ≤ length ["m1"; "m2"]
  ∧ Forall (λ v, strip v = v ∧ contains LF v = false) ["m1"; "m2"].
Proof.
  intros data d.
  assert (ClickatellResponse data = Ok d) as Hd by (by vm_compute).
  split; [done|].
  destruct (values_are_trimmed data d "ID" Hd) as [Hlist _].
  apply (Hlist ["m1"; "m2"]). by vm_compute.
Defined.

(** X9 on two replies that hold the same lines in another order. *)
Lemma result_depends_on_values_per_key_witness :
  let data1 := "ID: m1" +:+ nl +:+ "OK: 1" +:+ nl +:+ "ID: m2" in
  let data2 := "OK: 1" +:+ nl +:+ "ID: m1" +:+ nl +:+ "ID: m2" in
  ∃ d1 d2,
    (ClickatellResponse data1 = Ok d1 ∧ ClickatellResponse data2 = Ok d2
     ∧ ∀ key, occurrences key (split LF data1) = occurrences key (split LF data2))
    ∧ d1 = d2.
Proof.
  intros data1 data2.
  destruct (ClickatellResponse data1) as [d1|] eqn:H1; [|by vm_compute in H1].
  destruct (ClickatellResponse data2) as [d2|] eqn:H2; [|by vm_compute in H2].
  assert (∀ key, occurrences key (split LF data1)
                 = occurrences key (split LF data2)) as Hocc.
  { intros key. unfold occurrences.
    assert (pairs (split LF data1) = [("ID", "m1"); ("OK", "1"); ("ID", "m2")])
      as -> by done.
    assert (pairs (split LF data2) = [("OK", "1"); ("ID", "m1"); ("ID", "m2")])
      as -> by done.
    rewrite !filter_cons, !filter_nil. simpl.
    repeat case_decide; simplify_eq; done. }
  exists d1, d2. split; [done|].
  exact (result_depends_on_values_per_key data1 data2 d1 d2 H1 H2 Hocc).
Defined.

(** X12 on a reply whose [ERR] line comes before a line that does not
    match. *)
Lemma first_bad_line_decides_witness :
  let data := "ID: m1" +:+ nl +:+ "ERR: 007" +:+ nl +:+ "<html>" in
  ClickatellResponse data = Raise (ClickatellError None "007")
  ∧ ∃ before line after acc,
      split LF data = before ++ line :: after
      ∧ parse_lines before ∅ = Ok acc
      ∧ ((∃ v, line_pair line = Some ("ERR", v)
               ∧ ClickatellError None "007" = raise_error v
               ∧ (ClickatellError None "007" = ValueError
                  ∨ ∃ code message,
                      ClickatellError None "007" = ClickatellError code message))
         ∨ (¬ blank line ∧ line_pair line = None
            ∧ ClickatellError None "007" = AttributeError "group")).
Proof.
  intros data.
  assert (ClickatellResponse data = Raise (ClickatellError None "007")) as Hd
    by done.
  split; [done|]. exact (first_bad_line_decides data _ Hd).
Defined.

(** X13 on a balance query. *)
Lemma operation_returns_parsed_reply_witness :
  let c := {| _session_id := Some (VStr "abc123") |} in
  let w := World [] [Body "Credit: 12.5"] false in
  let d : gmap string value := {[ "Credit" := VStr "12.5" ]} in
  (METHODS !! "getbalance" = Some "http/getbalance"
   ∧ inbox w = [Body "Credit: 12.5"]
   ∧ ClickatellResponse "Credit: 12.5" = Ok d)
  ∧ invoke (H := urllib) c "getbalance" ∅ w
    = Some (Ok (Response d),
            World [Connect; Request "GET" "/http/getbalance?session_id=abc123";
                   Close] [] false).
Proof.
  intros c w d.
  assert (METHODS !! "getbalance" = Some "http/getbalance") as Hm by (by vm_compute).
  assert (ClickatellResponse "Credit: 12.5" = Ok d) as Hd by (by vm_compute).
  split; [done|].
  rewrite (operation_returns_parsed_reply (H := urllib) c "getbalance"
             "http/getbalance" ∅ w "Credit: 12.5" [] d Hm eq_refl Hd).
  by vm_compute.
Defined.

(** X14 on a gateway that refuses the connection. *)
Lemma refused_connection_sends_nothing_witness :
  let c := {| _session_id := Some (VStr "abc123") |} in
  let w := World [] [Refused; Body "OK: 1"] false in
  (METHODS !! "ping" = Some "http/ping" ∧ inbox w = Refused :: [Body "OK: 1"])
  ∧ invoke (H := urllib) c "ping" ∅ w
    = Some (Raise TransportError, World [Connect] [Body "OK: 1"] false).
Proof.
  intros c w.
  assert (METHODS !! "ping" = Some "http/ping") as Hm by (by vm_compute).
  split; [done|].
  by rewrite (refused_connection_sends_nothing (H := urllib) c "ping" "http/ping"
                ∅ w [Body "OK: 1"] Hm eq_refl).
Defined.

(** X15 on a gateway that sends nothing back. *)
Lemma broken_transport_leaves_open_witness :
  let c := {| _session_id := Some (VStr "abc123") |} in
  let w := World [] [] false in
  (METHODS !! "ping" = Some "http/ping"
   ∧ ((∃ rest, inbox w = Broken :: rest) ∨ inbox w = []))
  ∧ invoke (H := urllib) c "ping" ∅ w
    = Some (Raise TransportError,
            World [Connect; Request "GET" "/http/ping?session_id=abc123"] [] true).
Proof.
  intros c w.
  assert (METHODS !! "ping" = Some "http/ping") as Hm by (by vm_compute).
  assert ((∃ rest, inbox w = Broken :: rest) ∨ inbox w = []) as Hw by (by right).
  split; [done|].
  rewrite (broken_transport_leaves_open (H := urllib) c "ping" "http/ping"
             ∅ w Hm Hw).
  by vm_compute.
Defined.

(** X16 on a call that the gateway answers with an [ERR] line. *)
Lemma closed_iff_response_witness :
  let c := {| _session_id := Some (VStr "abc123") |} in
  let w := World [] [Body "ERR: 001, Authentication failed"] false in
  let r : result retval :=
    Raise (ClickatellError (Some "001") "Authentication failed") in
  let w' := World [Connect; Request "GET" "/http/ping?session_id=abc123"] [] true in
  (METHODS !! "ping" = Some "http/ping"
   ∧ invoke (H := urllib) c "ping" ∅ w = Some (r, w'))
  ∧ ∃ added,
      events w' = events w ++ added
      ∧ ((∃ d, r = Ok (Response d)) ↔ Close ∈ added)
      ∧ ((∃ d, r = Ok (Response d)) → is_open w' = false)
      ∧ ((∃ e, r = Raise e) → refused w = false → is_open w' = true).
Proof.
  intros c w r w'.
  assert (METHODS !! "ping" = Some "http/ping") as Hm by (by vm_compute).
  assert (invoke (H := urllib) c "ping" ∅ w = Some (r, w')) as Hi by (by vm_compute).
  split; [exact (conj Hm Hi)|].
  exact (closed_iff_response (H := urllib) c "ping" "http/ping" ∅ w r w' Hm Hi).
Defined.

(** X17 on a call of [SERVER], which is a string. *)
Lemma one_call_one_exchange_witness :
  let c := {| _session_id := Some (VStr "abc123") |} in
  let w := World [Connect; Close] [Body "OK: 1"] false in
  invoke (H := urllib) c "SERVER" ∅ w = Some (Raise TypeError, w)
  ∧ ∃ added,
      events w = events w ++ added
      ∧ exchange added
      ∧ (inbox w = inbox w ∨ inbox w = tail (inbox w)).
Proof.
  intros c w.
  assert (invoke (H := urllib) c "SERVER" ∅ w = Some (Raise TypeError, w)) as Hi
    by (by vm_compute).
  split; [exact Hi|].
  exact (one_call_one_exchange (H := urllib) c "SERVER" ∅ w _ w Hi).
Defined.

(** X19 on an [auth] reply with two [OK] lines, followed by a [ping]. *)
Lemma token_is_what_OK_holds_witness :
  let w := World [] [Body ("OK: a" +:+ nl +:+ "OK: b"); Body "OK:"] false in
  ∃ c w',
    Clickatell_new (H := urllib) "u" "p" "a" w = (Ok c, w')
    ∧ _session_id c = Some (VList ["a"; "b"])
    ∧ ∃ r w2,
        invoke (H := urllib) c "ping" ∅ w' = Some (r, w2)
        ∧ requests (events w2) =
            requests (events w')
            ++ ["/http/ping?session_id=%5B%27a%27%2C+%27b%27%5D"].
Proof.
  intros w.
  destruct (Clickatell_new (H := urllib) "u" "p" "a" w) as [[c|e] w'] eqn:Hnew;
    [|by vm_compute in Hnew].
  exists c, w'. split; [reflexivity|].
  destruct (token_is_what_OK_holds (H := urllib) _ _ _ _ _ _ Hnew)
    as (data & rest & tok & Hin & Hocc & Htok & Hcalls).
  injection Hin as <- <-.
  assert (tok = VList ["a"; "b"]) as -> by (by injection Hocc).
  split; [exact Htok|].
  destruct (Hcalls "ping" "http/ping" ∅ w') as (r & w2 & Hr & Hreq);
    [by vm_compute|].
  exists r, w2. split; [exact Hr|]. rewrite Hreq. f_equal.
  assert (refused w' = false) as ->
    by (by injection Hnew as _ <-).
  by vm_compute.
Defined.

(** X20 on an [auth] reply that has an [ID] line and no [OK] line. *)
Lemma construction_without_OK_witness :
  let w := World [] [Body "ID: m1"] false in
  (inbox w = [Body "ID: m1"] ∧ well_formed (split LF "ID: m1")
   ∧ ("ERR" ∉ keys (split LF "ID: m1")) ∧ ("OK" ∉ keys (split LF "ID: m1")))
  ∧ Clickatell_new (H := urllib) "u" "p" "a" w
    = (Raise (KeyError "OK"),
       World [Connect; Request "GET" "/http/auth?user=u&api_id=a&password=p";
              Close] [] false).
Proof.
  intros w.
  assert (well_formed (split LF "ID: m1")) as Hwf by compute_done.
  assert ("ERR" ∉ keys (split LF "ID: m1")) as Herr by compute_done.
  assert ("OK" ∉ keys (split LF "ID: m1")) as Hok by compute_done.
  split; [exact (conj eq_refl (conj Hwf (conj Herr Hok)))|].
  rewrite (construction_without_OK (H := urllib) "u" "p" "a" w "ID: m1" []
             eq_refl Hwf Herr Hok).
  by vm_compute.
Defined.

(** X21 on an [auth] reply that refuses the login. *)
Lemma construction_propagates_error_witness :
  let w := World [] [Body "ERR: 001, Authentication failed"] false in
  (inbox w = [Body "ERR: 001, Authentication failed"]
   ∧ ClickatellResponse "ERR: 001, Authentication failed"
     = Raise (ClickatellError (Some "001") "Authentication failed"))
  ∧ Clickatell_new (H := urllib) "u" "p" "a" w
    = (Raise (ClickatellError (Some "001") "Authentication failed"),
       World [Connect; Request "GET" "/http/auth?user=u&api_id=a&password=p"]
             [] true).
Proof.
  intros w. split; [split; [reflexivity | by vm_compute]|].
  rewrite (construction_propagates_error (H := urllib) "u" "p" "a" w
             "ERR: 001, Authentication failed" [] _ eq_refl eq_refl).
  by vm_compute.
Defined.

(** X22 on a client that holds the token [abc123]. *)
Lemma init_again_sends_old_token_witness :
  let c := {| _session_id := Some (VStr "abc123") |} in
  let w := World [] [Body "OK: xyz789"] false in
  let d : gmap string value := {[ "OK" := VStr "xyz789" ]} in
  (_session_id c = Some (VStr "abc123") ∧ inbox w = [Body "OK: xyz789"]
   ∧ ClickatellResponse "OK: xyz789" = Ok d ∧ d !! "OK" = Some (VStr "xyz789"))
  ∧ invoke (H := urllib) c "__init__"
      {[ "user" := "u"; "password" := "p"; "api_id" := "a" ]} w
    = Some (Ok (NoneValue {| _session_id := Some (VStr "xyz789") |}),
            World [Connect;
                   Request "GET"
                     "/http/auth?session_id=abc123&user=u&api_id=a&password=p";
                   Close] [] false).
Proof.
  intros c w d.
  assert (ClickatellResponse "OK: xyz789" = Ok d) as Hd by (by vm_compute).
  assert (d !! "OK" = Some (VStr "xyz789")) as Hok by (by vm_compute).
  split; [exact (conj eq_refl (conj eq_refl (conj Hd Hok)))|].
  rewrite (init_again_sends_old_token (H := urllib) c (VStr "abc123") "u" "p" "a"
             w "OK: xyz789" [] d (VStr "xyz789") eq_refl eq_refl Hd Hok).
  by vm_compute.
Defined.
